(** * potatoSlave: the storage node of the potato cache

    A shallow embedding of [potatoSlave/slave/slave.go]: the typed,
    per-user key/value store, the nine command handlers, the command
    dispatch of a session, the admission step of the accept loop and the
    sweep of the TTL checker, followed by the properties of the node's
    specification.

    Conventions of the embedding.
    - A Go [map] is a [gmap]; a missing user is Go's nil inner map: reads
      see no key, [delete] does nothing, an assignment panics.
    - [time.Time] and [time.Duration] are integers (nanoseconds) in [Z].
    - A handler is a computation in the monad [M]: it reads the clock,
      threads the slave's state and either returns or panics.
    - The mutex only serialises the handlers; a handler is modelled as one
      sequential run of its body. *)

From Stdlib Require Import ZArith Ascii.
From stdpp Require Import gmap strings list fin_maps.

Local Open Scope Z_scope.
Local Open Scope string_scope.

(** ** Time *)

Definition Time := Z.
Definition Duration := Z.

(** [t.Add(d)] *)
Definition Add (t : Time) (d : Duration) : Time := t + d.

(** [t.Before(u)]: strictly earlier. *)
Definition Before (t u : Time) : bool := bool_decide (t < u).

(** ** The stored values

    The three implementations of the [potat] interface, with the fields
    of the struct literals of [set], [lpush] and [hset]. *)

Inductive potat : Type :=
  | pstring (content : string) (timeOfDeath : Time)
  | plist (list : list string) (timeOfDeath : Time)
  | pmap (timeOfDeath : Time) (ourmap : gmap string string).

(** The dynamic type a [switch val.(type)] inspects. *)
Inductive variant : Type := StringValue | ListValue | MapValue.

Definition variant_of (p : potat) : variant :=
  match p with
  | pstring _ _ => StringValue
  | plist _ _ => ListValue
  | pmap _ _ => MapValue
  end.

(** Modelled from the spec: the method [getTimeOfDeath] of the three
    value types is not in the source file; it is the [deathTime()]
    capability of section 9, the entry's expiration timestamp. *)
Definition getTimeOfDeath (p : potat) : Time :=
  match p with
  | pstring _ t => t
  | plist _ t => t
  | pmap t _ => t
  end.

(** Modelled from the spec: the decimal reading of a list selector (the
    source of [getContent] and [setContent] is missing); an optional sign
    followed by at least one digit. *)
Definition digit_of (a : ascii) : option Z :=
  let n := Z.of_nat (nat_of_ascii a) in
  if bool_decide (48 <= n <= 57) then Some (n - 48) else None.

Fixpoint parse_digits (acc : Z) (s : string) : option Z :=
  match s with
  | EmptyString => Some acc
  | String a s' =>
      match digit_of a with
      | Some d => parse_digits (acc * 10 + d) s'
      | None => None
      end
  end.

Definition parse_unsigned (s : string) : option Z :=
  match s with
  | EmptyString => None
  | _ => parse_digits 0 s
  end.

Definition atoi (s : string) : option Z :=
  match s with
  | String "-" s' => Z.opp <$> parse_unsigned s'
  | String "+" s' => parse_unsigned s'
  | _ => parse_unsigned s
  end.

(** Modelled from the spec: [getContent(selector)] of the three value
    types is not in the source file; this is the table of section 4.4.
    [None] is the non-nil [error] result.
    - String: return the content;
    - List: the selector is a decimal index, an error if it does not parse
      or is out of range;
    - Map: the selector is a sub-key, an error if it is absent. *)
Definition getContent (selector : string) (p : potat) : option string :=
  match p with
  | pstring c _ => Some c
  | plist l _ =>
      match atoi selector with
      | Some i => if bool_decide (0 <= i) then l !! Z.to_nat i else None
      | None => None
      end
  | pmap _ m => m !! selector
  end.

(** Modelled from the spec: [setContent(value, selector)] of the three
    value types is not in the source file; this is the table of section
    4.4. [None] is the non-nil [error] result, which leaves the value as
    it was; the death time is never written.
    - String: replace the content;
    - List: selector [-1] appends, any other selector overwrites the
      element at the parsed index, an error if it does not parse or is out
      of range;
    - Map: insert or overwrite the sub-key. *)
Definition setContent (value selector : string) (p : potat) : option potat :=
  match p with
  | pstring _ t => Some (pstring value t)
  | plist l t =>
      if bool_decide (selector = "-1") then Some (plist (l ++ [value]) t)
      else
        match atoi selector with
        | Some i =>
            if bool_decide (0 <= i < Z.of_nat (length l))
            then Some (plist (<[Z.to_nat i := value]> l) t)
            else None
        | None => None
        end
  | pmap t m => Some (pmap t (<[selector := value]> m))
  end.

(** ** Messages *)

Record CommandMessage : Type := {
  Name : string;
  Arguments : list string;
  TTL : Duration
}.

Record ResponseMessage : Type := {
  Code : N;
  StatusMessage : string;
  Value : string
}.

(** [var response ResponseMessage]: the zero value. *)
Definition zeroResponse : ResponseMessage :=
  {| Code := 0%N; StatusMessage := ""; Value := "" |}.

(** ** Service messages *)

Definition _OK : N := 0.
Definition _WT : N := 1.
Definition _NK : N := 2.
Definition _WA : N := 3.
Definition _NW : N := 4.

Definition statusMessages : gmap N string :=
  list_to_map
    [ (_OK, "OK");
      (_WT, "Object stored at the key is of different type");
      (_NK, "Key doesn't exist");
      (_WA, "Wrong call arguments");
      (_NW, "There are no available workers on the server") ].

(** A Go map read of a missing key gives the zero value. *)
Definition setStatus (mes : ResponseMessage) (code : N) : ResponseMessage :=
  {| Code := code;
     StatusMessage := default "" (statusMessages !! code);
     Value := Value mes |}.

Definition withValue (mes : ResponseMessage) (v : string) : ResponseMessage :=
  {| Code := Code mes; StatusMessage := StatusMessage mes; Value := v |}.

(** ** The slave's state *)

Record PotatoSlave : Type := {
  storage : gmap string (gmap string potat);
  DEFAULTTTL : Duration
}.

Definition withStorage (s : PotatoSlave)
    (st : gmap string (gmap string potat)) : PotatoSlave :=
  {| storage := st; DEFAULTTTL := DEFAULTTTL s |}.

(** [s.storage[user][key]] read with the comma-ok form. *)
Definition entryAt (s : PotatoSlave) (user key : string) : option potat :=
  storage s !! user ≫= λ ks, ks !! key.

(** ** Returning or panicking, over the clock and the state *)

Inductive Result (A : Type) : Type :=
  | Returns (a : A)
  | Panics (reason : string).
Arguments Returns {A} a.
Arguments Panics {A} reason.

Definition M (A : Type) : Type := Time → PotatoSlave → Result (A * PotatoSlave).

Definition ret {A} (a : A) : M A := λ _ s, Returns (a, s).

Definition bind {A B} (m : M A) (f : A → M B) : M B :=
  λ now s,
    match m now s with
    | Returns (a, s') => f a now s'
    | Panics reason => Panics reason
    end.

Definition panic {A} (reason : string) : M A := λ _ _, Panics reason.

Notation "'do' x <- m ; k" := (bind m (λ x, k))
  (at level 10, x name, m at level 100, k at level 200).
Notation "'do_' m ; k" := (bind m (λ _, k))
  (at level 10, m at level 100, k at level 200).

(** [time.Now()] *)
Definition timeNow : M Time := λ now s, Returns (now, s).

Definition getSlave : M PotatoSlave := λ _ s, Returns (s, s).

(** [mes.Arguments[i]]: an index out of range panics. *)
Definition arg (mes : CommandMessage) (i : nat) : M string :=
  match Arguments mes !! i with
  | Some a => ret a
  | None => panic "index out of range"
  end.

(** [val, ok := s.storage[userID][key]] *)
Definition lookupEntry (userID key : string) : M (option potat) :=
  λ _ s, Returns (entryAt s userID key, s).

(** [delete(s.storage[userID], key)]: no-op on a nil map. *)
Definition deleteEntry (userID key : string) : M unit :=
  λ _ s, Returns (tt, withStorage s (alter (delete key) userID (storage s))).

(** [s.storage[userID][key] = e]: panics on a nil map. *)
Definition assignEntry (userID key : string) (e : potat) : M unit :=
  λ _ s,
    match storage s !! userID with
    | Some ks => Returns (tt, withStorage s (<[userID := <[key := e]> ks]> (storage s)))
    | None => Panics "assignment to entry in nil map"
    end.

(** [err := s.storage[userID][key].setContent(value, selector)]: the
    stored pointer is dereferenced and the value behind it mutated; the
    result is [true] when [err != nil]. *)
Definition callSetContent (userID key value selector : string) : M bool :=
  do val <- lookupEntry userID key;
  match val with
  | None => panic "nil pointer dereference"
  | Some e =>
      match setContent value selector e with
      | Some e' => do_ assignEntry userID key e'; ret false
      | None => ret true
      end
  end.

(** [content, err := s.storage[userID][key].getContent(selector)] *)
Definition callGetContent (userID key selector : string) : M (option string) :=
  do val <- lookupEntry userID key;
  match val with
  | None => panic "nil pointer dereference"
  | Some e => ret (getContent selector e)
  end.

(** The TTL of a created entry: the command's, or the server default. *)
Definition chooseTTL (mes : CommandMessage) : M Duration :=
  do s <- getSlave;
  ret (if bool_decide (TTL mes ≠ 0) then TTL mes else DEFAULTTTL s).

Definition lenIs (mes : CommandMessage) (n : nat) : bool :=
  (length (Arguments mes) =? n)%nat.

(** ** Invocable functions *)

Definition Handler : Type := string → CommandMessage → M ResponseMessage.

(** *** Data independent functions *)

Definition del : Handler := λ userID mes,
  let response := zeroResponse in
  if negb (lenIs mes 1) then ret (setStatus response _WA)
  else
    do a0 <- arg mes 0;
    do_ deleteEntry userID a0;
    ret (setStatus response _OK).

(** One [ans += "'" + k + "',"] step of the loop of [keys]. *)
Definition keysStep (ans k : string) : string := ans +:+ "'" +:+ k +:+ "',".

(** [for k := range m]: Go fixes no order; the embedding visits the keys
    in the order of [map_to_list]. *)
Definition rangeKeys (m : gmap string potat) : list string := (map_to_list m).*1.

Definition keys : Handler := λ userID mes,
  let response := zeroResponse in
  if negb (lenIs mes 0) then ret (setStatus response _WA)
  else
    do s <- getSlave;
    let ans := foldl keysStep "" (rangeKeys (default ∅ (storage s !! "user"))) in
    let response := withValue response ans in
    ret (setStatus response _OK).

(** *** String functions *)

Definition get : Handler := λ userID mes,
  let response := zeroResponse in
  if negb (lenIs mes 1) then ret (setStatus response _WA)
  else
    do a0 <- arg mes 0;
    do val <- lookupEntry userID a0;
    match val with
    | Some e =>
        match e with
        | pstring _ _ =>
            let response := withValue response (default "" (getContent "" e)) in
            ret (setStatus response _OK)
        | _ => ret (setStatus response _WT)
        end
    | None => ret (setStatus response _NK)
    end.

Definition set : Handler := λ userID mes,
  let response := zeroResponse in
  if negb (lenIs mes 2) then ret (setStatus response _WA)
  else
    do a0 <- arg mes 0;
    do_ deleteEntry userID a0;
    do ttl <- chooseTTL mes;
    do a1 <- arg mes 1;
    do now <- timeNow;
    do_ assignEntry userID a0 (pstring a1 (Add now ttl));
    ret (setStatus response _OK).

(** *** List functions *)

Definition lpush : Handler := λ userID mes,
  let response := zeroResponse in
  if negb (lenIs mes 2) then ret (setStatus response _WA)
  else
    do a0 <- arg mes 0;
    do val <- lookupEntry userID a0;
    let create :=
      do ttl <- chooseTTL mes;
      do a0 <- arg mes 0;
      do a1 <- arg mes 1;
      do now <- timeNow;
      do_ assignEntry userID a0 (plist [a1] (Add now ttl));
      ret (setStatus response _OK) in
    match val with
    | Some (plist _ _) =>
        do a1 <- arg mes 1;
        do_ callSetContent userID a0 a1 "-1";
        ret (setStatus response _OK)
    | _ => create
    end.

Definition lset : Handler := λ userID mes,
  let response := zeroResponse in
  if negb (lenIs mes 3) then ret (setStatus response _WA)
  else
    do a0 <- arg mes 0;
    do val <- lookupEntry userID a0;
    match val with
    | Some (plist _ _) =>
        do a2 <- arg mes 2;
        do a1 <- arg mes 1;
        do err <- callSetContent userID a0 a2 a1;
        if (err : bool) then ret (setStatus response _WA)
        else ret (setStatus response _OK)
    | Some _ => ret (setStatus response _WT)
    | None => ret (setStatus response _NK)
    end.

Definition lget : Handler := λ userID mes,
  let response := zeroResponse in
  if negb (lenIs mes 2) then ret (setStatus response _WA)
  else
    do a0 <- arg mes 0;
    do val <- lookupEntry userID a0;
    match val with
    | Some (plist _ _) =>
        do a1 <- arg mes 1;
        do res <- callGetContent userID a0 a1;
        match res with
        | None => ret (setStatus response _WA)
        | Some content => ret (setStatus (withValue response content) _OK)
        end
    | Some _ => ret (setStatus response _WT)
    | None => ret (setStatus response _NK)
    end.

(** *** Map functions *)

Definition hget : Handler := λ userID mes,
  let response := zeroResponse in
  if negb (lenIs mes 2) then ret (setStatus response _WA)
  else
    do a0 <- arg mes 0;
    do val <- lookupEntry userID a0;
    match val with
    | Some (pmap _ _) =>
        do a1 <- arg mes 1;
        do res <- callGetContent userID a0 a1;
        match res with
        | None => ret (setStatus response _WA)
        | Some content => ret (setStatus (withValue response content) _OK)
        end
    | Some _ => ret (setStatus response _WT)
    | None => ret (setStatus response _NK)
    end.

Definition hset : Handler := λ userID mes,
  let response := zeroResponse in
  if negb (lenIs mes 3) then ret (setStatus response _WA)
  else
    do a0 <- arg mes 0;
    do val <- lookupEntry userID a0;
    let create :=
      do ttl <- chooseTTL mes;
      do a0 <- arg mes 0;
      do now <- timeNow;
      do a2 <- arg mes 2;
      do a1 <- arg mes 1;
      do_ assignEntry userID a0 (pmap (Add now ttl) {[ a2 := a1 ]});
      ret response in
    match val with
    | Some (pmap _ _) =>
        do a2 <- arg mes 2;
        do a1 <- arg mes 1;
        do err <- callSetContent userID a0 a2 a1;
        if (err : bool) then ret (setStatus response _WA)
        else ret (setStatus response _OK)
    | _ => create
    end.

(** ** Command dispatch *)

(** The nine invocable functions. *)
Inductive Command : Type :=
  | CDel | CKeys | CGet | CSet | CLpush | CLset | CLget | CHget | CHset.

Definition allCommands : list Command :=
  [CDel; CKeys; CGet; CSet; CLpush; CLset; CLget; CHget; CHset].

Definition commandName (c : Command) : string :=
  match c with
  | CDel => "del" | CKeys => "keys" | CGet => "get" | CSet => "set"
  | CLpush => "lpush" | CLset => "lset" | CLget => "lget"
  | CHget => "hget" | CHset => "hset"
  end.

Definition handlerOf (c : Command) : Handler :=
  match c with
  | CDel => del | CKeys => keys | CGet => get | CSet => set
  | CLpush => lpush | CLset => lset | CLget => lget
  | CHget => hget | CHset => hset
  end.

(** The argument count each handler compares [len(mes.Arguments)] with. *)
Definition arity (c : Command) : nat :=
  match c with
  | CKeys => 0
  | CDel | CGet => 1
  | CSet | CLpush | CLget | CHget => 2
  | CLset | CHset => 3
  end.

(** Modelled from the spec: the field [s.functions] is filled outside
    the source file; section 4.6 gives it as the fixed table from the nine
    command names to their handlers. *)
Definition functions : gmap string Handler :=
  list_to_map ((λ c, (commandName c, handlerOf c)) <$> allCommands).

(** ** Communication with a client *)

(** What happens on one connection, in order. *)
Inductive Action : Type :=
  | Encode (r : ResponseMessage)
  | Close
  | ReleaseWorker
  | GoHandleConnection (username : string).

(** [authConnection]: the fixed identity, whose map is created when
    missing. *)
Definition authConnection (s : PotatoSlave) : string * PotatoSlave :=
  match storage s !! "user" with
  | Some _ => ("user", s)
  | None => ("user", withStorage s (<["user" := ∅]> (storage s)))
  end.

(** [handleConnection]: [inbound] holds the commands the decoder yields,
    each with the clock reading of its handler call; the end of the list is
    the decoding error that ends the loop. Calling the nil function a
    missing table entry yields panics. *)
Fixpoint handleConnection (inbound : list (Time * CommandMessage))
    (username : string) (s : PotatoSlave) : Result (list Action * PotatoSlave) :=
  match inbound with
  | [] => Returns ([ReleaseWorker; Close], s)
  | (now, mes) :: rest =>
      match functions !! Name mes with
      | None => Panics "invalid memory address or nil pointer dereference"
      | Some f =>
          match f username mes now s with
          | Panics reason => Panics reason
          | Returns (returnMes, s') =>
              match handleConnection rest username s' with
              | Panics reason => Panics reason
              | Returns (acts, s'') => Returns (Encode returnMes :: acts, s'')
              end
          end
      end
  end.

Definition noWorkersResponse : ResponseMessage :=
  {| Code := _NW;
     StatusMessage := default "" (statusMessages !! _NW);
     Value := "" |}.

(** The body of the accept loop of [StartServing] for one accepted
    connection: [workerReady] tells which case of the [select] fired, the
    receive from [s.availableWorkers] or the one second timer. The result
    lists what the loop itself does with the connection. *)
Definition serveAccepted (workerReady : bool) (s : PotatoSlave)
    : list Action * PotatoSlave :=
  if workerReady then
    let '(name, s') := authConnection s in ([GoHandleConnection name], s')
  else ([Encode noWorkersResponse], s).

(** The accept loop over the connections it accepts. *)
Fixpoint acceptLoop (accepted : list bool) (s : PotatoSlave)
    : list (list Action) * PotatoSlave :=
  match accepted with
  | [] => ([], s)
  | workerReady :: rest =>
      let '(acts, s') := serveAccepted workerReady s in
      let '(more, s'') := acceptLoop rest s' in
      (acts :: more, s'')
  end.

(** ** The TTL checker *)

(** One pass of the two nested loops of [ttlCheckRoutine]. [time.Now()] is
    read anew at every key, so the clock is given per user and key. *)
Definition sweepKeys (clock : string → Time) (ks : gmap string potat)
    : gmap string potat :=
  filter (λ kv : string * potat,
            Before (getTimeOfDeath kv.2) (clock kv.1) = false) ks.

Definition ttlSweep (clock : string → string → Time)
    (st : gmap string (gmap string potat)) : gmap string (gmap string potat) :=
  map_imap (λ user ks, Some (sweepKeys (clock user) ks)) st.

(** ** Notions used to state the properties *)

(** A command message from its three fields. *)
Definition mkCommand (name : string) (args : list string) (ttl : Duration)
    : CommandMessage :=
  {| Name := name; Arguments := args; TTL := ttl |}.

(** A store where the fixed identity holds a string at [k] and a list at
    [l]; the default TTL is 1000. *)
Definition slave0 : PotatoSlave :=
  {| storage := {[ "user" := {[ "k" := pstring "old" 50; "l" := plist ["a"] 60 ]} ]};
     DEFAULTTTL := 1000 |}.

(** The number of entries a keyspace holds at a key. *)
Definition entriesAt (key : string) (ks : gmap string potat) : nat :=
  length (filter (λ kv : string * potat, kv.1 = key) (map_to_list ks)).

(** The state after [delete(s.storage[u], k)]. *)
Definition dropEntry (s : PotatoSlave) (u k : string) : PotatoSlave :=
  withStorage s (alter (delete k) u (storage s)).

(** The state after [s.storage[u][k] = e] when [u] has a keyspace. *)
Definition putEntry (s : PotatoSlave) (u k : string) (e : potat) : PotatoSlave :=
  match storage s !! u with
  | Some ks => withStorage s (<[u := <[k := e]> ks]> (storage s))
  | None => s
  end.

(** The death time of an entry this command creates now. *)
Definition freshDeath (now : Time) (ttl : Duration) (s : PotatoSlave) : Time :=
  Add now (if bool_decide (ttl ≠ 0) then ttl else DEFAULTTTL s).

(** The responses [setStatus] builds for the four codes of the handlers. *)
Definition respOK (v : string) : ResponseMessage :=
  {| Code := _OK; StatusMessage := "OK"; Value := v |}.
Definition respWT : ResponseMessage :=
  {| Code := _WT; StatusMessage := "Object stored at the key is of different type";
     Value := "" |}.
Definition respNK : ResponseMessage :=
  {| Code := _NK; StatusMessage := "Key doesn't exist"; Value := "" |}.
Definition respWA : ResponseMessage :=
  {| Code := _WA; StatusMessage := "Wrong call arguments"; Value := "" |}.

(** [s'] differs from [s] at most at the key [k] of user [u], where it
    holds [e]. *)
Definition writesOnly (s s' : PotatoSlave) (u k : string) (e : potat) : Prop :=
  entryAt s' u k = Some e ∧
  ∀ u' k', ¬ (u' = u ∧ k' = k) → entryAt s' u' k' = entryAt s u' k'.

(** Whether command [c] with the right number of arguments stores a new
    entry at its key, given what the key holds: [set] always does, [lpush]
    and [hset] unless the key holds their own variant, the others never. *)
Definition creates (c : Command) (old : option potat) : bool :=
  match c with
  | CSet => true
  | CLpush => match old with Some (plist _ _) => false | _ => true end
  | CHset => match old with Some (pmap _ _) => false | _ => true end
  | _ => false
  end.

(** The variant the type switch of a handler accepts, for the handlers
    that have one. *)
Definition wantedVariant (c : Command) : option variant :=
  match c with
  | CGet => Some StringValue
  | CLpush | CLset | CLget => Some ListValue
  | CHget | CHset => Some MapValue
  | CDel | CKeys | CSet => None
  end.

(** The state after one pass of the TTL checker. *)
Definition sweep (clock : string → string → Time) (s : PotatoSlave) : PotatoSlave :=
  withStorage s (ttlSweep clock (storage s)).

(** A store with a second user next to the fixed identity. *)
Definition slave2 : PotatoSlave :=
  {| storage := {[ "user" := {[ "a" := pstring "x" 50 ]};
                   "alice" := {[ "b" := pstring "y" 50 ]} ]};
     DEFAULTTTL := 1000 |}.

(** The text ['k1','k2',] of a list of keys, every key quoted and followed
    by a comma. *)
Fixpoint keysText (l : list string) : string :=
  match l with
  | [] => ""
  | k :: l' => "'" +:+ k +:+ "'," +:+ keysText l'
  end.

(** The list of the supported command names. *)
Definition commandNames : list string := commandName <$> allCommands.

(** The three handlers that assign into the caller's keyspace. *)
Definition assigning : list Command := [CSet; CLpush; CHset].

(** What a handler called by [userID] with message [mes] may have done to
    the state [s]: nothing, or, at the key named by the first argument, a
    delete, an assignment, or a delete followed by an assignment. *)
Inductive Effect (s : PotatoSlave) (userID : string) (mes : CommandMessage)
    : PotatoSlave → Prop :=
  | EffNone : Effect s userID mes s
  | EffDrop k :
      Arguments mes !! 0%nat = Some k →
      Effect s userID mes (dropEntry s userID k)
  | EffPut k e :
      Arguments mes !! 0%nat = Some k →
      is_Some (storage s !! userID) →
      Effect s userID mes (putEntry s userID k e)
  | EffDropPut k e :
      Arguments mes !! 0%nat = Some k →
      is_Some (storage s !! userID) →
      Effect s userID mes (putEntry (dropEntry s userID k) userID k e).

(** The six handlers that never call [time.Now()]. *)
Definition clockFree : list Command := [CDel; CKeys; CGet; CLset; CLget; CHget].

(** * Properties *)

(** ** Basic facts *)

Lemma setStatus_OK r :
  setStatus r _OK = {| Code := 0; StatusMessage := "OK"; Value := Value r |}.
Proof. reflexivity. Qed.

Lemma setStatus_WT r :
  setStatus r _WT =
  {| Code := 1; StatusMessage := "Object stored at the key is of different type";
     Value := Value r |}.
Proof. reflexivity. Qed.

Lemma setStatus_NK r :
  setStatus r _NK = {| Code := 2; StatusMessage := "Key doesn't exist"; Value := Value r |}.
Proof. reflexivity. Qed.

Lemma setStatus_WA r :
  setStatus r _WA = {| Code := 3; StatusMessage := "Wrong call arguments"; Value := Value r |}.
Proof. reflexivity. Qed.

Lemma lenIs_false mes n : length (Arguments mes) ≠ n → lenIs mes n = false.
Proof. intros H. unfold lenIs. by apply Nat.eqb_neq. Qed.

Lemma lenIs_true mes n : length (Arguments mes) = n → lenIs mes n = true.
Proof. intros H. unfold lenIs. by apply Nat.eqb_eq. Qed.

(** ** Storage facts *)

Lemma entryAt_withStorage s st user key :
  entryAt (withStorage s st) user key = st !! user ≫= λ ks, ks !! key.
Proof. reflexivity. Qed.

Lemma entryAt_Some s user key e :
  entryAt s user key = Some e ↔
  ∃ ks, storage s !! user = Some ks ∧ ks !! key = Some e.
Proof.
  unfold entryAt. destruct (storage s !! user) as [ks|]; simpl.
  - split; [eauto | by intros (? & [= <-] & ?)].
  - split; [done | by intros (? & ? & ?)].
Qed.

Lemma alter_delete_insert (st : gmap string (gmap string potat)) user key ks e :
  st !! user = Some ks →
  <[user := <[key := e]> (delete key ks)]> (alter (delete key) user st)
  = <[user := <[key := e]> (delete key ks)]> st.
Proof. intros _. apply insert_alter_eq. Qed.

Lemma filter_none {A} (P : A → Prop) `{!∀ x, Decision (P x)} (l : list A) :
  (∀ x, x ∈ l → ¬ P x) → filter P l = [].
Proof.
  induction l as [| x l IH]; intros Hno; [done |].
  rewrite filter_cons_False by (apply Hno; left).
  apply IH. intros y Hy. apply Hno. by right.
Qed.

Lemma entriesAt_absent key (ks : gmap string potat) :
  ks !! key = None → entriesAt key ks = 0%nat.
Proof.
  intros Hk. unfold entriesAt.
  rewrite filter_none; [done |].
  intros [k' e'] Hin Heq. simpl in Heq. subst k'.
  apply elem_of_map_to_list in Hin. congruence.
Qed.

Lemma entriesAt_insert key e (ks : gmap string potat) :
  entriesAt key (<[key := e]> ks) = 1%nat.
Proof.
  unfold entriesAt. rewrite <- (insert_delete_eq ks).
  rewrite (map_to_list_insert (delete key ks) key e) by apply lookup_delete_eq.
  rewrite filter_cons_True by done. simpl. f_equal.
  apply (entriesAt_absent key (delete key ks)), lookup_delete_eq.
Qed.

(** ** [set] then [get] *)

(** C2. In a state where the caller's keyspace exists (it does from
    [authConnection] on), [set] with arguments [k; v] returns OK, drops
    whatever entry the key held, of any variant, and stores a new string
    entry with content [v]; a following [get] of [k] returns [v] with OK,
    and the keyspace holds exactly one entry at [k]. *)
Theorem set_then_get (userID name name' k v : string) (ttl ttl' : Duration)
    (now now' : Time) (s : PotatoSlave) (ks : gmap string potat) :
  storage s !! userID = Some ks →
  let e := pstring v (Add now (if bool_decide (ttl ≠ 0) then ttl else DEFAULTTTL s)) in
  let ks1 := <[k := e]> (delete k ks) in
  let s1 := withStorage s (<[userID := ks1]> (storage s)) in
  set userID (mkCommand name [k; v] ttl) now s
    = Returns ({| Code := _OK; StatusMessage := "OK"; Value := "" |}, s1)
  ∧ entryAt s1 userID k = Some e
  ∧ get userID (mkCommand name' [k] ttl') now' s1
    = Returns ({| Code := _OK; StatusMessage := "OK"; Value := v |}, s1)
  ∧ entriesAt k ks1 = 1%nat.
Proof.
  intros Hks e ks1 s1.
  assert (Hrun : set userID (mkCommand name [k; v] ttl) now s
                 = Returns ({| Code := _OK; StatusMessage := "OK"; Value := "" |}, s1)).
  { unfold set, lenIs, bind, arg, deleteEntry, chooseTTL, bind, getSlave,
      timeNow, assignEntry, ret; simpl.
    rewrite lookup_alter_eq, Hks; simpl.
    unfold s1, withStorage; simpl.
    by rewrite (alter_delete_insert _ _ _ _ _ Hks). }
  assert (Hat : entryAt s1 userID k = Some e).
  { unfold s1. rewrite entryAt_withStorage, lookup_insert_eq; simpl.
    apply lookup_insert_eq. }
  repeat split; [done | done | | apply entriesAt_insert].
  unfold get, lenIs, bind, arg, lookupEntry, ret; simpl.
  by rewrite Hat.
Qed.

Lemma set_then_get_witness :
  storage slave0 !! "user" = Some {[ "k" := pstring "old" 50; "l" := plist ["a"] 60 ]}
  ∧ ∃ s1, set "user" (mkCommand "set" ["k"; "v"] 0) 7 slave0
          = Returns ({| Code := _OK; StatusMessage := "OK"; Value := "" |}, s1)
    ∧ get "user" (mkCommand "get" ["k"] 0) 9 s1
          = Returns ({| Code := _OK; StatusMessage := "OK"; Value := "v" |}, s1).
Proof.
  assert (H : storage slave0 !! "user"
              = Some {[ "k" := pstring "old" 50; "l" := plist ["a"] 60 ]})
    by (vm_compute; reflexivity).
  split; [exact H |].
  destruct (set_then_get "user" "set" "get" "k" "v" 0 0 7 9 slave0 _ H)
    as (Hset & _ & Hget & _).
  eexists. split; [exact Hset | exact Hget].
Defined.

(** ** What each handler computes *)

Lemma entryAt_dropEntry s u k u' k' :
  entryAt (dropEntry s u k) u' k' =
  if decide (u' = u ∧ k' = k) then None else entryAt s u' k'.
Proof.
  unfold dropEntry. rewrite entryAt_withStorage. unfold entryAt.
  destruct (decide (u' = u)) as [-> | Hu].
  - rewrite lookup_alter_eq. destruct (storage s !! u) as [ks|]; simpl.
    + destruct (decide (k' = k)) as [-> | Hk].
      * rewrite decide_True by done. apply lookup_delete_eq.
      * rewrite decide_False by (intros [? ?]; done). by apply lookup_delete_ne.
    + by case_decide.
  - rewrite lookup_alter_ne by done. rewrite decide_False by (intros [? ?]; done). done.
Qed.

Lemma entryAt_putEntry s u k e u' k' :
  is_Some (storage s !! u) →
  entryAt (putEntry s u k e) u' k' =
  if decide (u' = u ∧ k' = k) then Some e else entryAt s u' k'.
Proof.
  intros [ks Hks]. unfold putEntry. rewrite Hks, entryAt_withStorage.
  unfold entryAt.
  destruct (decide (u' = u)) as [-> | Hu].
  - rewrite lookup_insert_eq, Hks; simpl.
    destruct (decide (k' = k)) as [-> | Hk].
    + rewrite decide_True by done. apply lookup_insert_eq.
    + rewrite decide_False by (intros [? ?]; done). by apply lookup_insert_ne.
  - rewrite lookup_insert_ne by done. rewrite decide_False by (intros [? ?]; done). done.
Qed.

Lemma putEntry_keyspace s u k e u' :
  is_Some (storage s !! u') → is_Some (storage (putEntry s u k e) !! u').
Proof.
  intros Hu'. unfold putEntry. destruct (storage s !! u) as [ks|] eqn:Hks; [| done].
  simpl. destruct (decide (u' = u)) as [-> | Hne].
  - rewrite lookup_insert_eq. eauto.
  - by rewrite lookup_insert_ne.
Qed.

Lemma dropEntry_keyspace s u k u' :
  is_Some (storage s !! u') → is_Some (storage (dropEntry s u k) !! u').
Proof.
  intros [ks Hu']. unfold dropEntry; simpl.
  destruct (decide (u' = u)) as [-> | Hne].
  - rewrite lookup_alter_eq, Hu'. simpl. eauto.
  - rewrite lookup_alter_ne by done. eauto.
Qed.

Arguments setContent : simpl never.
Arguments getContent : simpl never.

Ltac run_handler :=
  unfold del, keys, get, set, lpush, lset, lget, hget, hset,
    callSetContent, callGetContent, lenIs, bind, arg, lookupEntry,
    deleteEntry, chooseTTL, getSlave, timeNow, assignEntry, ret, panic;
  simpl.

Lemma wrong_arity_run (c : Command) userID mes now s :
  length (Arguments mes) ≠ arity c →
  handlerOf c userID mes now s = Returns (respWA, s).
Proof.
  intros Hlen.
  destruct c; simpl in Hlen |- *;
    unfold del, keys, get, set, lpush, lset, lget, hget, hset;
    rewrite (lenIs_false _ _ Hlen); reflexivity.
Qed.

Lemma del_run userID name k ttl now s :
  del userID (mkCommand name [k] ttl) now s = Returns (respOK "", dropEntry s userID k).
Proof. reflexivity. Qed.

Lemma keys_run userID name ttl now s :
  keys userID (mkCommand name [] ttl) now s =
  Returns (respOK (foldl keysStep "" (rangeKeys (default ∅ (storage s !! "user")))), s).
Proof. reflexivity. Qed.

Lemma get_run userID name k ttl now s :
  get userID (mkCommand name [k] ttl) now s =
  Returns (match entryAt s userID k with
           | Some (pstring c _) => respOK c
           | Some _ => respWT
           | None => respNK
           end, s).
Proof. run_handler. by destruct (entryAt s userID k) as [[]|]. Qed.

Lemma set_run userID name k v ttl now s :
  is_Some (storage s !! userID) →
  set userID (mkCommand name [k; v] ttl) now s =
  Returns (respOK "", putEntry (dropEntry s userID k) userID k
                        (pstring v (freshDeath now ttl s))).
Proof.
  intros [ks Hks]. run_handler. unfold putEntry, dropEntry; simpl.
  by rewrite lookup_alter_eq, Hks.
Qed.

Lemma setContent_append v l t :
  setContent v "-1" (plist l t) = Some (plist (l ++ [v]) t).
Proof. reflexivity. Qed.

Lemma lpush_run userID name k v ttl now s :
  is_Some (storage s !! userID) →
  lpush userID (mkCommand name [k; v] ttl) now s =
  Returns (respOK "",
           putEntry s userID k
             match entryAt s userID k with
             | Some (plist l t) => plist (l ++ [v]) t
             | _ => plist [v] (freshDeath now ttl s)
             end).
Proof.
  intros [ks Hks]. run_handler. unfold putEntry.
  destruct (entryAt s userID k) as [[c t | l t | t m]|] eqn:He;
    simpl; rewrite ?He, ?setContent_append, ?Hks; reflexivity.
Qed.

Lemma lset_run userID name k i v ttl now s :
  lset userID (mkCommand name [k; i; v] ttl) now s =
  match entryAt s userID k with
  | Some (plist l t) =>
      match setContent v i (plist l t) with
      | Some e' => Returns (respOK "", putEntry s userID k e')
      | None => Returns (respWA, s)
      end
  | Some _ => Returns (respWT, s)
  | None => Returns (respNK, s)
  end.
Proof.
  run_handler.
  destruct (entryAt s userID k) as [[c t | l t | t m]|] eqn:He; try reflexivity.
  rewrite He. apply entryAt_Some in He as (ks & Hks & _).
  destruct (setContent v i (plist l t)) as [e'|]; [| reflexivity].
  unfold putEntry. by rewrite Hks.
Qed.

Lemma lget_run userID name k i ttl now s :
  lget userID (mkCommand name [k; i] ttl) now s =
  Returns (match entryAt s userID k with
           | Some (plist l t) =>
               match getContent i (plist l t) with
               | Some content => respOK content
               | None => respWA
               end
           | Some _ => respWT
           | None => respNK
           end, s).
Proof.
  run_handler.
  destruct (entryAt s userID k) as [[c t | l t | t m]|] eqn:He; try reflexivity.
  rewrite He. by destruct (getContent i (plist l t)).
Qed.

Lemma hget_run userID name k f ttl now s :
  hget userID (mkCommand name [k; f] ttl) now s =
  Returns (match entryAt s userID k with
           | Some (pmap t m) =>
               match getContent f (pmap t m) with
               | Some content => respOK content
               | None => respWA
               end
           | Some _ => respWT
           | None => respNK
           end, s).
Proof.
  run_handler.
  destruct (entryAt s userID k) as [[c t | l t | t m]|] eqn:He; try reflexivity.
  rewrite He. by destruct (getContent f (pmap t m)).
Qed.

Lemma setContent_field v f t m :
  setContent v f (pmap t m) = Some (pmap t (<[f := v]> m)).
Proof. reflexivity. Qed.

Lemma hset_run userID name k f v ttl now s :
  is_Some (storage s !! userID) →
  hset userID (mkCommand name [k; f; v] ttl) now s =
  match entryAt s userID k with
  | Some (pmap t m) =>
      Returns (respOK "", putEntry s userID k (pmap t (<[f := v]> m)))
  | _ =>
      Returns (zeroResponse,
               putEntry s userID k (pmap (freshDeath now ttl s) {[ v := f ]}))
  end.
Proof.
  intros [ks Hks]. run_handler. unfold putEntry.
  destruct (entryAt s userID k) as [[c t | l t | t m]|] eqn:He;
    simpl; rewrite ?He, ?setContent_field, ?Hks; reflexivity.
Qed.

(** ** Wrong argument counts *)

(** C1. Each of the nine handlers, called with a number of arguments other
    than the one it requires, returns the WrongArguments response (code 3
    with its message, empty value) and the slave's state, storage included,
    is the one it was called in. *)
Theorem wrong_arity_WrongArguments (c : Command) (userID : string)
    (mes : CommandMessage) (now : Time) (s : PotatoSlave) :
  length (Arguments mes) ≠ arity c →
  handlerOf c userID mes now s =
    Returns ({| Code := _WA; StatusMessage := "Wrong call arguments"; Value := "" |}, s).
Proof.
  intros Hlen. by apply wrong_arity_run.
Qed.

Lemma wrong_arity_WrongArguments_witness :
  length (Arguments (mkCommand "set" ["k"] 0)) ≠ arity CSet ∧
  handlerOf CSet "user" (mkCommand "set" ["k"] 0) 7 slave0 =
    Returns ({| Code := _WA; StatusMessage := "Wrong call arguments"; Value := "" |}, slave0).
Proof.
  split; [simpl; lia |].
  apply (wrong_arity_WrongArguments CSet "user" (mkCommand "set" ["k"] 0) 7 slave0).
  simpl; lia.
Defined.

(** ** Writes that create or mutate: [lpush] and [hset] *)

Lemma putEntry_writesOnly s u k e :
  is_Some (storage s !! u) → writesOnly s (putEntry s u k e) u k e.
Proof.
  intros Hu. split.
  - rewrite entryAt_putEntry by done. by rewrite decide_True.
  - intros u' k' Hne. rewrite entryAt_putEntry by done. by rewrite decide_False.
Qed.

(** C3. Where the caller's keyspace exists, [lpush k v] and [hset k f v]
    both return with code OK, never WrongType, and change storage at key
    [k] only. If the key holds an entry of the command's own variant it is
    mutated in place, the list getting [v] appended and the map getting
    field [f] set to [v], with the death time it had. If the key is absent
    or holds another variant, the entry is a new one with the fresh death
    time: the one-element list [[v]], or a one-field map (which the source
    writes with [v] as the field and [f] as its value). *)
Theorem lpush_hset_write_policy (userID name k f v : string) (ttl : Duration)
    (now : Time) (s : PotatoSlave) :
  is_Some (storage s !! userID) →
  ∃ r1 s1 r2 s2,
    lpush userID (mkCommand name [k; v] ttl) now s = Returns (r1, s1)
    ∧ hset userID (mkCommand name [k; f; v] ttl) now s = Returns (r2, s2)
    ∧ Code r1 = _OK ∧ Code r2 = _OK
    ∧ writesOnly s s1 userID k
        match entryAt s userID k with
        | Some (plist l t) => plist (l ++ [v]) t
        | _ => plist [v] (freshDeath now ttl s)
        end
    ∧ writesOnly s s2 userID k
        match entryAt s userID k with
        | Some (pmap t m) => pmap t (<[f := v]> m)
        | _ => pmap (freshDeath now ttl s) {[ v := f ]}
        end.
Proof.
  intros Hks.
  pose proof (lpush_run userID name k v ttl now s Hks) as Hl.
  pose proof (hset_run userID name k f v ttl now s Hks) as Hh.
  destruct (entryAt s userID k) as [[c t | l t | t m]|] eqn:He;
    do 4 eexists; (split; [exact Hl |]); (split; [exact Hh |]);
    repeat split; try reflexivity;
    try (rewrite entryAt_putEntry by done; by rewrite decide_True);
    intros u' k' Hne; rewrite entryAt_putEntry by done; by rewrite decide_False.
Qed.

Lemma lpush_hset_write_policy_witness :
  is_Some (storage slave0 !! "user") ∧
  ∃ r1 s1 r2 s2,
    lpush "user" (mkCommand "lpush" ["k"; "b"] 0) 7 slave0 = Returns (r1, s1)
    ∧ hset "user" (mkCommand "lpush" ["k"; "f"; "b"] 0) 7 slave0 = Returns (r2, s2)
    ∧ Code r1 = _OK ∧ Code r2 = _OK
    ∧ entryAt s1 "user" "k" = Some (plist ["b"] 1007)
    ∧ entryAt s2 "user" "k" = Some (pmap 1007 {[ "b" := "f" ]}).
Proof.
  assert (H : is_Some (storage slave0 !! "user")) by (vm_compute; eauto).
  split; [exact H |].
  destruct (lpush_hset_write_policy "user" "lpush" "k" "f" "b" 0 7 slave0 H)
    as (r1 & s1 & r2 & s2 & H1 & H2 & Hc1 & Hc2 & [Hw1 _] & [Hw2 _]).
  exists r1, s1, r2, s2. repeat split; assumption.
Defined.

(** C10. When [hset] with three arguments creates the map entry (the key
    is absent or holds a string or a list), no status is set: the response
    is the zero value, code 0 (OK) with an empty status message. *)
Theorem hset_create_empty_status (userID name k f v : string) (ttl : Duration)
    (now : Time) (s : PotatoSlave) :
  is_Some (storage s !! userID) →
  (∀ e, entryAt s userID k = Some e → variant_of e ≠ MapValue) →
  ∃ r s',
    hset userID (mkCommand name [k; f; v] ttl) now s = Returns (r, s')
    ∧ Code r = _OK ∧ StatusMessage r = "" ∧ r = zeroResponse
    ∧ ∃ t m, entryAt s' userID k = Some (pmap t m).
Proof.
  intros Hks Hvar.
  pose proof (hset_run userID name k f v ttl now s Hks) as Hh.
  destruct (entryAt s userID k) as [[c t | l t | t m]|] eqn:He;
    try (by destruct (Hvar _ eq_refl));
    do 2 eexists; (split; [exact Hh |]); repeat split;
    do 2 eexists; rewrite entryAt_putEntry by done; by rewrite decide_True.
Qed.

Lemma hset_create_empty_status_witness :
  is_Some (storage slave0 !! "user") ∧
  (∀ e, entryAt slave0 "user" "k" = Some e → variant_of e ≠ MapValue) ∧
  ∃ s', hset "user" (mkCommand "hset" ["k"; "f"; "v"] 0) 7 slave0
        = Returns ({| Code := 0; StatusMessage := ""; Value := "" |}, s').
Proof.
  assert (H : is_Some (storage slave0 !! "user")) by (vm_compute; eauto).
  assert (Hv : ∀ e, entryAt slave0 "user" "k" = Some e → variant_of e ≠ MapValue).
  { intros e He. vm_compute in He. injection He as <-. discriminate. }
  split; [exact H |]. split; [exact Hv |].
  destruct (hset_create_empty_status "user" "hset" "k" "f" "v" 0 7 slave0 H Hv)
    as (r & s' & Hrun & _ & _ & -> & _).
  exists s'. exact Hrun.
Defined.

(** ** Death times *)

Lemma setContent_keeps value selector e e' :
  setContent value selector e = Some e' →
  getTimeOfDeath e' = getTimeOfDeath e ∧ variant_of e' = variant_of e.
Proof.
  unfold setContent. destruct e as [c t | l t | t m]; intros He.
  - by injection He as <-.
  - case_bool_decide; [by injection He as <- |].
    destruct (atoi selector) as [i|]; [| done].
    case_bool_decide; [by injection He as <- | done].
  - by injection He as <-.
Qed.

Lemma first_argument_other (u u' k k' : string) (rest : list string) (n : nat) b :
  ¬ (u' = u ∧ k' = k) →
  bool_decide (length (k :: rest) = n ∧ u' = u ∧ (k :: rest) !! 0%nat = Some k') && b
  = false.
Proof.
  intros Hne. rewrite bool_decide_eq_false_2; [done |].
  intros (_ & -> & [= ->]). by apply Hne.
Qed.

Lemma first_argument_this (u k : string) (rest : list string) (n : nat) b :
  length (k :: rest) = n →
  bool_decide (length (k :: rest) = n ∧ u = u ∧ (k :: rest) !! 0%nat = Some k) && b
  = b.
Proof. intros Hn. by rewrite bool_decide_eq_true_2. Qed.

(** C9. Where the caller's keyspace exists, every handler returns, and any
    entry found afterwards either was stored by this very call as a new
    entry (the command has its required argument count, the entry sits at
    the caller's key named by the first argument, and the command creates
    there: [set] always, [lpush] and [hset] when the key was absent or held
    another variant), and then its death time is now plus the command's TTL
    when that is nonzero and now plus the server default otherwise; or it
    was there before with the same death time. The second case covers the
    entries mutated in place: the list [lpush] appends to, the list [lset]
    overwrites, the map [hset] sets a field of. *)
Theorem death_time_only_at_creation (c : Command) (userID : string)
    (mes : CommandMessage) (now : Time) (s : PotatoSlave) :
  is_Some (storage s !! userID) →
  ∃ r s',
    handlerOf c userID mes now s = Returns (r, s') ∧
    ∀ u' k' e', entryAt s' u' k' = Some e' →
      if bool_decide (length (Arguments mes) = arity c ∧ u' = userID
                      ∧ Arguments mes !! 0%nat = Some k')
         && creates c (entryAt s userID k')
      then getTimeOfDeath e'
           = Add now (if bool_decide (TTL mes ≠ 0) then TTL mes else DEFAULTTTL s)
      else ∃ e, entryAt s u' k' = Some e ∧ getTimeOfDeath e' = getTimeOfDeath e.
Proof.
  intros Hks. destruct mes as [name args ttl]; simpl.
  destruct (decide (length args = arity c)) as [Hlen | Hlen]; cycle 1.
  { exists respWA, s. split; [by apply wrong_arity_run |].
    intros u' k' e' He'.
    rewrite bool_decide_eq_false_2 by (intros [? _]; contradiction). simpl. eauto. }
  assert (Hsame : ∀ r, handlerOf c userID (mkCommand name args ttl) now s = Returns (r, s) →
            creates c = (λ _, false) →
            ∃ r s', handlerOf c userID (mkCommand name args ttl) now s = Returns (r, s') ∧
            ∀ u' k' e', entryAt s' u' k' = Some e' →
              if bool_decide (length args = arity c ∧ u' = userID
                              ∧ args !! 0%nat = Some k')
                 && creates c (entryAt s userID k')
              then getTimeOfDeath e'
                   = Add now (if bool_decide (ttl ≠ 0) then ttl else DEFAULTTTL s)
              else ∃ e, entryAt s u' k' = Some e ∧ getTimeOfDeath e' = getTimeOfDeath e).
  { intros r Hrun Hcr. exists r, s. split; [done |].
    intros u' k' e' He'. rewrite Hcr, andb_false_r. eauto. }
  fold (mkCommand name args ttl).
  destruct c; simpl in Hlen;
    destruct args as [| a0 [| a1 [| a2 [| a3 args]]]]; try discriminate Hlen.
  - (* del *)
    exists (respOK ""), (dropEntry s userID a0). split; [apply del_run |].
    intros u' k' e'. rewrite entryAt_dropEntry.
    destruct (decide (u' = userID ∧ k' = a0)) as [_ | Hd]; [done |].
    intros He'. rewrite andb_false_r. eauto.
  - (* keys *)
    eapply Hsame; [apply keys_run | done].
  - (* get *)
    eapply Hsame; [apply get_run | done].
  - (* set *)
    exists (respOK ""),
      (putEntry (dropEntry s userID a0) userID a0 (pstring a1 (freshDeath now ttl s))).
    split; [by apply set_run |].
    intros u' k' e'. rewrite entryAt_putEntry by by apply dropEntry_keyspace.
    destruct (decide (u' = userID ∧ k' = a0)) as [[-> ->] | Hd].
    + intros [= <-]. by rewrite first_argument_this.
    + rewrite entryAt_dropEntry, decide_False by done.
      intros He'. rewrite first_argument_other by done. eauto.
  - (* lpush *)
    eexists _, _. split; [by apply lpush_run |].
    intros u' k' e'. rewrite entryAt_putEntry by done.
    destruct (decide (u' = userID ∧ k' = a0)) as [[-> ->] | Hd].
    + rewrite first_argument_this by done.
      destruct (entryAt s userID a0) as [[c t | l t | t m] |];
        intros [= <-]; simpl; eauto.
    + intros He'. rewrite first_argument_other by done. eauto.
  - (* lset *)
    destruct (entryAt s userID a0) as [[c t | l t | t m] |] eqn:He;
      try (eapply Hsame; [by rewrite lset_run, He | done]).
    destruct (setContent a2 a1 (plist l t)) as [e1 |] eqn:Hset;
      [| eapply Hsame; [by rewrite lset_run, He, Hset | done]].
    eexists _, _. split; [by simpl; rewrite lset_run, He, Hset |].
    intros u' k' e'. rewrite entryAt_putEntry by done. rewrite andb_false_r.
    destruct (decide (u' = userID ∧ k' = a0)) as [[-> ->] | Hd].
    + intros [= <-]. exists (plist l t).
      split; [done |]. by apply setContent_keeps in Hset as [-> _].
    + eauto.
  - (* lget *)
    eapply Hsame; [apply lget_run | done].
  - (* hget *)
    eapply Hsame; [apply hget_run | done].
  - (* hset *)
    unfold handlerOf. rewrite hset_run by done.
    destruct (entryAt s userID a0) as [[c t | l t | t m] |] eqn:He;
      (eexists _, _; split; [done |]);
      intros u' k' e'; rewrite entryAt_putEntry by done;
      (destruct (decide (u' = userID ∧ k' = a0)) as [[-> ->] | Hd];
       [ rewrite first_argument_this by done;
         rewrite He; intros [= <-]; simpl; eauto
       | intros He'; rewrite first_argument_other by done; eauto ]).
Qed.

Lemma death_time_only_at_creation_witness :
  is_Some (storage slave0 !! "user") ∧
  ∃ r s',
    handlerOf CLpush "user" (mkCommand "lpush" ["l"; "b"] 5) 7 slave0 = Returns (r, s')
    ∧ ∀ e', entryAt s' "user" "l" = Some e' → getTimeOfDeath e' = 60.
Proof.
  assert (H : is_Some (storage slave0 !! "user")) by (vm_compute; eauto).
  split; [exact H |].
  destruct (death_time_only_at_creation CLpush "user"
              (mkCommand "lpush" ["l"; "b"] 5) 7 slave0 H) as (r & s' & Hrun & Hframe).
  exists r, s'. split; [exact Hrun |].
  intros e' He'. specialize (Hframe "user" "l" e' He').
  vm_compute in Hframe. destruct Hframe as (e & [= <-] & Hd). exact Hd.
Defined.

(** ** Commands that only look up *)

Ltac not_listed H :=
  exfalso;
  repeat (apply elem_of_cons in H as [H | H]; [discriminate H |]);
  by apply elem_of_nil in H.

(** C4, amended. [get], [lget], [hget], [lset] and [del] always return and
    never create or replace an entry: every entry found afterwards was
    there before, with the same variant and death time, and the three
    reads leave the state as it was. Called with their required argument
    count, [get], [lget], [hget] and [lset] answer NoKey when the key is
    absent and WrongType when it holds a variant other than theirs; [del]
    looks nothing up and answers OK in every case. *)
Theorem lookups_never_create (c : Command) (userID : string)
    (mes : CommandMessage) (now : Time) (s : PotatoSlave) :
  c ∈ [CGet; CLget; CHget; CLset; CDel] →
  ∃ r s',
    handlerOf c userID mes now s = Returns (r, s')
    ∧ (∀ u' k' e', entryAt s' u' k' = Some e' →
         ∃ e, entryAt s u' k' = Some e ∧ variant_of e' = variant_of e
              ∧ getTimeOfDeath e' = getTimeOfDeath e)
    ∧ (c ∈ [CGet; CLget; CHget] → s' = s)
    ∧ (length (Arguments mes) = arity c →
       ∀ k, Arguments mes !! 0%nat = Some k →
         match wantedVariant c with
         | Some w =>
             (entryAt s userID k = None → r = respNK)
             ∧ (∀ e, entryAt s userID k = Some e → variant_of e ≠ w → r = respWT)
         | None => r = respOK ""
         end).
Proof.
  intros Hc. destruct mes as [name args ttl]; simpl.
  destruct (decide (length args = arity c)) as [Hlen | Hlen]; cycle 1.
  { exists respWA, s. split; [by apply wrong_arity_run |].
    split; [by eauto |]. split; [done |]. intros; contradiction. }
  fold (mkCommand name args ttl).
  destruct c; try (by not_listed Hc); clear Hc; simpl in Hlen;
    destruct args as [| a0 [| a1 [| a2 [| a3 args]]]]; try discriminate Hlen;
    unfold handlerOf, wantedVariant.
  - (* del *)
    exists (respOK ""), (dropEntry s userID a0). split; [apply del_run |].
    split; [| split; [intros Hc; not_listed Hc | done]].
    intros u' k' e'. rewrite entryAt_dropEntry.
    destruct (decide (u' = userID ∧ k' = a0)); [done | eauto].
  - (* get *)
    eexists _, s. split; [apply get_run |].
    split; [by eauto |]. split; [done |].
    intros _ k [= <-]. split.
    + by intros ->.
    + intros e -> Hv. by destruct e.
  - (* lset *)
    rewrite lset_run.
    destruct (entryAt s userID a0) as [[c t | l t | t m] |] eqn:He.
    + eexists _, s. split; [done |]. split; [by eauto |]. split; [done |].
      intros _ k [= <-]. rewrite He. split; [done | by intros e [= <-]].
    + destruct (setContent a2 a1 (plist l t)) as [e1 |] eqn:Hset.
      * eexists _, _. split; [done |]. split; [| split].
        -- intros u' k' e'. rewrite entryAt_putEntry
             by (apply entryAt_Some in He as (? & -> & _); eauto).
           destruct (decide (u' = userID ∧ k' = a0)) as [[-> ->] | Hd]; [| by eauto].
           intros [= <-]. exists (plist l t).
           by apply setContent_keeps in Hset as [-> ->].
        -- intros Hc; not_listed Hc.
        -- intros _ k [= <-]. rewrite He.
           split; [done | intros e [= <-] Hv; by destruct Hv].
      * eexists _, s. split; [done |]. split; [by eauto |]. split; [done |].
        intros _ k [= <-]. rewrite He.
        split; [done | intros e [= <-] Hv; by destruct Hv].
    + eexists _, s. split; [done |]. split; [by eauto |]. split; [done |].
      intros _ k [= <-]. rewrite He. split; [done | by intros e [= <-]].
    + eexists _, s. split; [done |]. split; [by eauto |]. split; [done |].
      intros _ k [= <-]. rewrite He. split; [done | by intros e [= <-]].
  - (* lget *)
    eexists _, s. split; [apply lget_run |].
    split; [by eauto |]. split; [done |].
    intros _ k [= <-]. split.
    + by intros ->.
    + intros e -> Hv. by destruct e.
  - (* hget *)
    eexists _, s. split; [apply hget_run |].
    split; [by eauto |]. split; [done |].
    intros _ k [= <-]. split.
    + by intros ->.
    + intros e -> Hv. by destruct e.
Qed.

Lemma lookups_never_create_witness :
  CGet ∈ [CGet; CLget; CHget; CLset; CDel] ∧
  ∃ s', handlerOf CGet "user" (mkCommand "get" ["l"] 0) 7 slave0 = Returns (respWT, s').
Proof.
  assert (H : CGet ∈ [CGet; CLget; CHget; CLset; CDel]) by (left; reflexivity).
  split; [exact H |].
  destruct (lookups_never_create CGet "user" (mkCommand "get" ["l"] 0) 7 slave0 H)
    as (r & s' & Hrun & _ & _ & Hresp).
  specialize (Hresp eq_refl "l" eq_refl). simpl in Hresp.
  destruct Hresp as [_ Hwt].
  exists s'. rewrite <- (Hwt (plist ["a"] 60)); [exact Hrun | | discriminate].
  vm_compute. reflexivity.
Defined.

(** C4 as stated fails for [del]: it is not the case that each of the five
    commands answers NoKey for an absent key. [del] of a key that is not
    there answers OK. *)
Lemma del_absent_key_not_NoKey :
  ¬ (∀ c, c ∈ [CGet; CLget; CHget; CLset; CDel] →
     ∀ userID mes now s k,
       length (Arguments mes) = arity c →
       Arguments mes !! 0%nat = Some k →
       entryAt s userID k = None →
       ∃ r s', handlerOf c userID mes now s = Returns (r, s') ∧ Code r = _NK).
Proof.
  intros Hclaim.
  assert (Hc : CDel ∈ [CGet; CLget; CHget; CLset; CDel]) by (do 4 right; left).
  destruct (Hclaim CDel Hc "user" (mkCommand "del" ["missing"] 0) 7 slave0 "missing"
              eq_refl eq_refl) as (r & s' & Hrun & Hcode).
  - vm_compute. reflexivity.
  - simpl in Hrun. rewrite del_run in Hrun. injection Hrun as <- _.
    discriminate Hcode.
Qed.

(** ** The TTL checker *)

Lemma entryAt_sweep clock s u k :
  entryAt (sweep clock s) u k =
  entryAt s u k ≫= λ e,
    if Before (getTimeOfDeath e) (clock u k) then None else Some e.
Proof.
  unfold sweep. rewrite entryAt_withStorage. unfold entryAt, ttlSweep.
  rewrite map_lookup_imap.
  destruct (storage s !! u) as [ks |]; simpl; [| done].
  unfold sweepKeys. rewrite map_lookup_filter.
  destruct (ks !! k) as [e |]; simpl; [| done].
  case_guard as Hg; simpl; [by rewrite Hg |].
  by destruct (Before (getTimeOfDeath e) (clock u k)).
Qed.

Lemma sweep_keeps_keyspace clock s u :
  is_Some (storage s !! u) → is_Some (storage (sweep clock s) !! u).
Proof.
  intros [ks Hks]. unfold sweep, ttlSweep; simpl.
  rewrite map_lookup_imap, Hks. simpl. eauto.
Qed.

(** C5, amended. In a sweep, an entry is deleted exactly when its death
    time is strictly before the clock reading taken at its key; an entry
    that is not deleted is left as it is, so an entry whose death time
    equals the reading stays. *)
Theorem sweep_deletes_strictly_before (clock : string → string → Time)
    (s : PotatoSlave) (u k : string) (e : potat) :
  entryAt s u k = Some e →
  (entryAt (sweep clock s) u k = None ↔ getTimeOfDeath e < clock u k)
  ∧ ((clock u k ≤ getTimeOfDeath e)%Z → entryAt (sweep clock s) u k = Some e).
Proof.
  intros He. rewrite entryAt_sweep, He. simpl. unfold Before.
  case_bool_decide as Hlt; split; try done; lia.
Qed.

Lemma sweep_deletes_strictly_before_witness :
  entryAt slave0 "user" "k" = Some (pstring "old" 50) ∧
  (entryAt (sweep (λ _ _, 51) slave0) "user" "k" = None ↔ 50 < 51) ∧
  ((51 ≤ 50)%Z → entryAt (sweep (λ _ _, 51) slave0) "user" "k" = Some (pstring "old" 50)).
Proof.
  assert (H : entryAt slave0 "user" "k" = Some (pstring "old" 50))
    by (vm_compute; reflexivity).
  split; [exact H |].
  exact (sweep_deletes_strictly_before (λ _ _, 51) slave0 "user" "k" _ H).
Defined.

(** C5 as stated fails: deletion does not happen exactly when the death
    time is at or before the current time. An entry whose death time
    equals the clock reading survives the sweep. *)
Lemma sweep_keeps_entry_dying_now :
  ¬ (∀ clock s u k e,
       entryAt s u k = Some e →
       (entryAt (sweep clock s) u k = None ↔ (getTimeOfDeath e ≤ clock u k)%Z)).
Proof.
  intros Hclaim.
  destruct (Hclaim (λ _ _, 50) slave0 "user" "k" (pstring "old" 50)) as [_ Hdel].
  - vm_compute. reflexivity.
  - assert (Hgone : entryAt (sweep (λ _ _, 50) slave0) "user" "k" = None)
      by (apply Hdel; simpl; lia).
    vm_compute in Hgone. discriminate Hgone.
Qed.

(** ** Dispatch *)

Lemma functions_lookup (c : Command) :
  functions !! commandName c = Some (handlerOf c).
Proof. destruct c; reflexivity. Qed.

Lemma functions_unknown (name : string) :
  name ∉ commandNames → functions !! name = None.
Proof.
  intros Hname. unfold functions. apply not_elem_of_list_to_map.
  by rewrite <- list_fmap_compose.
Qed.

Lemma commandNames_spec (name : string) :
  name ∈ commandNames ↔ ∃ c, name = commandName c.
Proof.
  unfold commandNames. rewrite list_elem_of_fmap. split.
  - intros (c & -> & _). eauto.
  - intros (c & ->). exists c. split; [done |].
    destruct c; unfold allCommands; set_unfold; tauto.
Qed.

(** A command whose name is not in the table makes the session panic at
    the call, before any response to it is encoded. *)
Lemma unknown_command_panics now mes rest username s :
  Name mes ∉ commandNames →
  handleConnection ((now, mes) :: rest) username s
  = Panics "invalid memory address or nil pointer dereference".
Proof. intros Hname. simpl. by rewrite functions_unknown. Qed.

(** C6, on the code: a session that receives the command named [flush],
    which is none of the nine, ends in a panic; no response is produced. *)
Theorem unknown_command_faults :
  ("flush" ∉ commandNames) ∧
  handleConnection [(7, mkCommand "flush" [] 0)] "user" slave0
  = Panics "invalid memory address or nil pointer dereference".
Proof.
  assert (H : "flush" ∉ commandNames).
  { unfold commandNames, allCommands. simpl. set_unfold. intros H.
    repeat (destruct H as [H | H]; [discriminate H |]). done. }
  split; [exact H |]. by apply unknown_command_panics.
Qed.

(** ** Admission *)

Lemma handleConnection_closes inbound username s acts s' :
  handleConnection inbound username s = Returns (acts, s') →
  last acts = Some Close.
Proof.
  revert s acts s'. induction inbound as [| [now mes] rest IH]; intros s acts s'; simpl.
  - by intros [= <- _].
  - destruct (functions !! Name mes) as [f |]; [| done].
    destruct (f username mes now s) as [[r s1] |]; [| done].
    destruct (handleConnection rest username s1) as [[acts1 s2] |] eqn:Hrest; [| done].
    intros [= <- _]. apply IH in Hrest.
    destruct acts1; [done | exact Hrest].
Qed.

(** C7, on the code: when the timer case of the [select] fires, the accept
    loop encodes the one NoWorkers response (code 4 with its message) on the
    connection and does nothing else with it: no session is started, and
    the connection is not closed. *)
Theorem no_worker_response_without_close (s : PotatoSlave) :
  serveAccepted false s
  = ([Encode {| Code := 4;
                StatusMessage := "There are no available workers on the server";
                Value := "" |}], s)
  ∧ (Close ∉ (serveAccepted false s).1)
  ∧ (∀ name, GoHandleConnection name ∉ (serveAccepted false s).1).
Proof.
  split; [reflexivity |]. simpl. split.
  - intros H. apply list_elem_of_singleton in H. discriminate H.
  - intros name H. apply list_elem_of_singleton in H. discriminate H.
Qed.

(** ** [keys] *)

Lemma append_assoc (a b c : string) : (a +:+ b) +:+ c = a +:+ (b +:+ c).
Proof.
  induction a as [| x a IH]; [reflexivity |].
  change (String x ((a +:+ b) +:+ c) = String x (a +:+ (b +:+ c))).
  by f_equal.
Qed.

Lemma append_empty_r (a : string) : a +:+ "" = a.
Proof.
  induction a as [| x a IH]; [reflexivity |].
  change (String x (a +:+ "") = String x a). by f_equal.
Qed.

Lemma foldl_keysStep (l : list string) (ans : string) :
  foldl keysStep ans l = ans +:+ keysText l.
Proof.
  revert ans. induction l as [| k l IH]; intros ans; simpl.
  - by rewrite append_empty_r.
  - rewrite IH. unfold keysStep. by rewrite !append_assoc.
Qed.

Lemma rangeKeys_spec (m : gmap string potat) (k : string) :
  k ∈ rangeKeys m ↔ is_Some (m !! k).
Proof.
  unfold rangeKeys. rewrite list_elem_of_fmap. split.
  - intros ([k' e] & -> & Hin). apply elem_of_map_to_list in Hin. eauto.
  - intros [e He]. exists (k, e). split; [done |]. by apply elem_of_map_to_list.
Qed.

Lemma rangeKeys_NoDup (m : gmap string potat) : NoDup (rangeKeys m).
Proof. apply NoDup_fst_map_to_list. Qed.

(** Whoever calls, [keys] without arguments lists the keys of the keyspace
    of the identity "user", each once, as ['k1','k2',]. *)
Lemma keys_lists_user_keyspace userID name ttl now s :
  ∃ l, keys userID (mkCommand name [] ttl) now s = Returns (respOK (keysText l), s)
       ∧ NoDup l
       ∧ ∀ k, k ∈ l ↔ is_Some (entryAt s "user" k).
Proof.
  exists (rangeKeys (default ∅ (storage s !! "user"))).
  split; [by rewrite keys_run, foldl_keysStep |].
  split; [apply rangeKeys_NoDup |].
  intros k. rewrite rangeKeys_spec. unfold entryAt.
  destruct (storage s !! "user") as [ks |]; simpl; [done |].
  rewrite lookup_empty. split; by intros [? ?].
Qed.

(** The keyspace [keys] ranges over is written as the literal [user]: in a
    handcrafted store with a second user [alice], a call made in her name
    would still list the key of [user]. No session makes such a call, the
    identity of every session being the one [authConnection] answers. *)
Lemma keys_reads_fixed_keyspace :
  entryAt slave2 "alice" "b" = Some (pstring "y" 50)
  ∧ entryAt slave2 "alice" "a" = None
  ∧ keys "alice" (mkCommand "keys" [] 0) 7 slave2 = Returns (respOK "'a',", slave2).
Proof. repeat split; vm_compute; reflexivity. Qed.

(** C8. For every caller identity, that is, every identity
    [authConnection] resolves a connection to, and in every state, [keys]
    without arguments returns OK and leaves the state as it is; its value
    is the text ['k1','k2',] of a list that holds exactly the keys of the
    caller's own keyspace, each once. *)
Theorem keys_lists_callers_keyspace (s0 : PotatoSlave) (userID name : string)
    (ttl : Duration) (now : Time) (s : PotatoSlave) :
  (authConnection s0).1 = userID →
  ∃ l : list string,
    keys userID (mkCommand name [] ttl) now s = Returns (respOK (keysText l), s)
    ∧ NoDup l
    ∧ (∀ k, k ∈ l ↔ is_Some (entryAt s userID k)).
Proof.
  intros Hid.
  assert (Huser : userID = "user").
  { rewrite <- Hid. unfold authConnection. by destruct (storage s0 !! "user"). }
  subst userID. rewrite Huser.
  exact (keys_lists_user_keyspace "user" name ttl now s).
Qed.

Lemma keys_lists_callers_keyspace_witness :
  (authConnection slave0).1 = "user" ∧
  ∃ l : list string,
    keys "user" (mkCommand "keys" [] 0) 7 slave0 = Returns (respOK (keysText l), slave0)
    ∧ NoDup l
    ∧ (∀ k, k ∈ l ↔ is_Some (entryAt slave0 "user" k)).
Proof.
  assert (H : (authConnection slave0).1 = "user") by (vm_compute; reflexivity).
  split; [exact H |].
  exact (keys_lists_callers_keyspace slave0 "user" "keys" 0 7 slave0 H).
Defined.

(** ** The caller's keyspace exists throughout a session *)

Lemma authConnection_keyspace s :
  (authConnection s).1 = "user"
  ∧ is_Some (storage (authConnection s).2 !! "user").
Proof.
  unfold authConnection. destruct (storage s !! "user") as [ks |] eqn:Hks; simpl.
  - rewrite Hks. eauto.
  - rewrite lookup_insert_eq. eauto.
Qed.

(** A handler run in a state where the caller has a keyspace returns, and
    what it does to the state is one of: nothing, a delete, an assignment,
    or a delete followed by an assignment, all in the caller's keyspace. *)
Lemma handler_effect (c : Command) userID mes now s :
  is_Some (storage s !! userID) →
  ∃ r s',
    handlerOf c userID mes now s = Returns (r, s')
    ∧ (s' = s
       ∨ (∃ k, s' = dropEntry s userID k)
       ∨ (∃ k e, s' = putEntry s userID k e)
       ∨ (∃ k e, s' = putEntry (dropEntry s userID k) userID k e)).
Proof.
  intros Hks. destruct mes as [name args ttl].
  destruct (decide (length args = arity c)) as [Hlen | Hlen]; cycle 1.
  { exists respWA, s. split; [by apply wrong_arity_run | by left]. }
  fold (mkCommand name args ttl).
  destruct c; simpl in Hlen;
    destruct args as [| a0 [| a1 [| a2 [| a3 args]]]]; try discriminate Hlen;
    unfold handlerOf.
  - rewrite del_run. eauto 10.
  - rewrite keys_run. eauto 10.
  - rewrite get_run. eauto 10.
  - rewrite set_run by done. eauto 10.
  - rewrite lpush_run by done. eauto 10.
  - rewrite lset_run.
    destruct (entryAt s userID a0) as [[c t | l t | t m] |]; eauto 10.
    destruct (setContent a2 a1 (plist l t)); eauto 10.
  - rewrite lget_run. eauto 10.
  - rewrite hget_run. eauto 10.
  - rewrite hset_run by done.
    destruct (entryAt s userID a0) as [[c t | l t | t m] |]; eauto 10.
Qed.

Lemma handler_keeps_keyspace (c : Command) userID mes now s r s' u :
  is_Some (storage s !! userID) →
  handlerOf c userID mes now s = Returns (r, s') →
  is_Some (storage s !! u) → is_Some (storage s' !! u).
Proof.
  intros Hks Hrun Hu.
  destruct (handler_effect c userID mes now s Hks) as (r1 & s1 & Hrun1 & Heff).
  rewrite Hrun in Hrun1. injection Hrun1 as <- <-.
  destruct Heff as [-> | [(k & ->) | [(k & e & ->) | (k & e & ->)]]].
  - done.
  - by apply dropEntry_keyspace.
  - by apply putEntry_keyspace.
  - by apply putEntry_keyspace, dropEntry_keyspace.
Qed.

(** A session whose commands all name one of the nine handlers, started in
    a state where its identity has a keyspace, runs to the end of its
    input: one response per command, then the worker is released and the
    connection closed. *)
Lemma session_returns inbound username s :
  Forall (λ m : Time * CommandMessage, Name m.2 ∈ commandNames) inbound →
  is_Some (storage s !! username) →
  ∃ acts s',
    handleConnection inbound username s = Returns (acts, s')
    ∧ length acts = (length inbound + 2)%nat
    ∧ is_Some (storage s' !! username).
Proof.
  intros Hnames. revert s.
  induction Hnames as [| [now mes] rest Hname _ IH]; intros s Hks; simpl.
  - eauto.
  - simpl in Hname. apply commandNames_spec in Hname as (c & ->).
    rewrite functions_lookup.
    destruct (handler_effect c username mes now s Hks) as (r & s1 & Hrun & _).
    rewrite Hrun.
    destruct (IH s1) as (acts & s2 & -> & Hlen & Hks2).
    { eapply handler_keeps_keyspace; eauto. }
    exists (Encode r :: acts), s2. simpl. by rewrite Hlen.
Qed.

(** The accept loop itself never closes a connection it accepted. *)
Lemma acceptLoop_never_closes accepted s acts :
  acts ∈ (acceptLoop accepted s).1 → Close ∉ acts.
Proof.
  revert s. induction accepted as [| workerReady rest IH]; intros s; simpl.
  - by intros ?%elem_of_nil.
  - destruct (serveAccepted workerReady s) as [acts0 s1] eqn:Hserve.
    destruct (acceptLoop rest s1) as [more s2] eqn:Hloop. simpl.
    intros [-> | Hin]%elem_of_cons.
    + unfold serveAccepted in Hserve. destruct workerReady.
      * destruct (authConnection s) as [name s0]. injection Hserve as <- _.
        intros H%list_elem_of_singleton. discriminate H.
      * injection Hserve as <- _.
        intros H%list_elem_of_singleton. discriminate H.
    + apply (IH s1). by rewrite Hloop.
Qed.

(** ** Runs of the scenarios of section 8 *)

Example set_get_run :
  match set "user" (mkCommand "set" ["k"; "v"] 0) 7 slave0 with
  | Returns (r, s1) =>
      (r, get "user" (mkCommand "get" ["k"] 0) 9 s1, entryAt s1 "user" "k")
  | Panics _ => (zeroResponse, Panics "", None)
  end
  = ({| Code := 0; StatusMessage := "OK"; Value := "" |},
     Returns ({| Code := 0; StatusMessage := "OK"; Value := "v" |},
              {| storage := {[ "user" := {[ "k" := pstring "v" 1007; "l" := plist ["a"] 60 ]} ]};
                 DEFAULTTTL := 1000 |}),
     Some (pstring "v" 1007)).
Proof. vm_compute. reflexivity. Qed.

Example lpush_lget_run :
  match lpush "user" (mkCommand "lpush" ["q"; "a"] 0) 7 slave0 with
  | Returns (_, s1) =>
      match lpush "user" (mkCommand "lpush" ["q"; "b"] 0) 8 s1 with
      | Returns (_, s2) =>
          (lget "user" (mkCommand "lget" ["q"; "0"] 0) 9 s2,
           lget "user" (mkCommand "lget" ["q"; "1"] 0) 9 s2,
           lget "user" (mkCommand "lget" ["q"; "2"] 0) 9 s2,
           entryAt s2 "user" "q")
      | Panics reason => (Panics reason, Panics reason, Panics reason, None)
      end
  | Panics reason => (Panics reason, Panics reason, Panics reason, None)
  end
  = (Returns (respOK "a", putEntry slave0 "user" "q" (plist ["a"; "b"] 1007)),
     Returns (respOK "b", putEntry slave0 "user" "q" (plist ["a"; "b"] 1007)),
     Returns (respWA, putEntry slave0 "user" "q" (plist ["a"; "b"] 1007)),
     Some (plist ["a"; "b"] 1007)).
Proof. vm_compute. reflexivity. Qed.

(** The map [hset] creates has the value as its field: reading the field
    just written finds nothing, reading the value finds the field name. *)
Example hset_hget_run :
  match hset "user" (mkCommand "hset" ["h"; "f"; "v"] 0) 7 slave0 with
  | Returns (_, s1) =>
      (hget "user" (mkCommand "hget" ["h"; "f"] 0) 9 s1,
       hget "user" (mkCommand "hget" ["h"; "v"] 0) 9 s1)
  | Panics reason => (Panics reason, Panics reason)
  end
  = (Returns (respWA, putEntry slave0 "user" "h" (pmap 1007 {[ "v" := "f" ]})),
     Returns (respOK "f", putEntry slave0 "user" "h" (pmap 1007 {[ "v" := "f" ]}))).
Proof. vm_compute. reflexivity. Qed.

Example del_get_run :
  match del "user" (mkCommand "del" ["k"] 0) 7 slave0 with
  | Returns (r, s1) => (r, get "user" (mkCommand "get" ["k"] 0) 9 s1)
  | Panics reason => (zeroResponse, Panics reason)
  end
  = (respOK "", Returns (respNK, dropEntry slave0 "user" "k")).
Proof. vm_compute. reflexivity. Qed.

(** * Further properties of the node *)

(** ** Handler outcomes in every state *)

Ltac by_arity c args Hlen :=
  destruct c; simpl in Hlen;
  destruct args as [| ?a0 [| ?a1 [| ?a2 [| ?a3 args]]]]; try discriminate Hlen;
  unfold handlerOf.

Lemma entryAt_no_keyspace s u k : storage s !! u = None → entryAt s u k = None.
Proof. intros H. unfold entryAt. by rewrite H. Qed.

Lemma set_nil userID name k v ttl now s :
  storage s !! userID = None →
  set userID (mkCommand name [k; v] ttl) now s = Panics "assignment to entry in nil map".
Proof. intros Hks. run_handler. by rewrite lookup_alter_eq, Hks. Qed.

Lemma lpush_nil userID name k v ttl now s :
  storage s !! userID = None →
  lpush userID (mkCommand name [k; v] ttl) now s = Panics "assignment to entry in nil map".
Proof.
  intros Hks. run_handler. rewrite (entryAt_no_keyspace _ _ _ Hks). by rewrite Hks.
Qed.

Lemma hset_nil userID name k f v ttl now s :
  storage s !! userID = None →
  hset userID (mkCommand name [k; f; v] ttl) now s = Panics "assignment to entry in nil map".
Proof.
  intros Hks. run_handler. rewrite (entryAt_no_keyspace _ _ _ Hks). by rewrite Hks.
Qed.

Lemma storage_dropEntry_ne s u k u' :
  u' ≠ u → storage (dropEntry s u k) !! u' = storage s !! u'.
Proof. intros Hne. unfold dropEntry; simpl. by rewrite lookup_alter_ne. Qed.

Lemma storage_putEntry_ne s u k e u' :
  u' ≠ u → storage (putEntry s u k e) !! u' = storage s !! u'.
Proof.
  intros Hne. unfold putEntry. destruct (storage s !! u); [| done].
  simpl. by rewrite lookup_insert_ne.
Qed.

Lemma DEFAULTTTL_putEntry s u k e : DEFAULTTTL (putEntry s u k e) = DEFAULTTTL s.
Proof. unfold putEntry. by destruct (storage s !! u). Qed.

(** The outcome of any handler call in any state: it returns with one of
    the effects of [Effect], or it is one of the three assigning handlers,
    called with its argument count by a user without a keyspace, and
    panics on the assignment. *)
Lemma handler_outcome (c : Command) userID mes now s :
  match handlerOf c userID mes now s with
  | Returns (r, s') => Effect s userID mes s'
  | Panics reason =>
      c ∈ assigning ∧ length (Arguments mes) = arity c
      ∧ storage s !! userID = None
      ∧ reason = "assignment to entry in nil map"
  end.
Proof.
  destruct mes as [name args ttl].
  destruct (decide (length args = arity c)) as [Hlen | Hlen]; cycle 1.
  { rewrite wrong_arity_run by done. constructor. }
  fold (mkCommand name args ttl).
  destruct (storage s !! userID) as [ks |] eqn:Hks.
  - assert (Hsome : is_Some (storage s !! userID)) by (rewrite Hks; eauto).
    by_arity c args Hlen.
    + rewrite del_run. by constructor.
    + rewrite keys_run. constructor.
    + rewrite get_run. constructor.
    + rewrite set_run by done. by constructor.
    + rewrite lpush_run by done. by constructor.
    + rewrite lset_run.
      destruct (entryAt s userID a0) as [[c t | l t | t m] |]; try constructor.
      destruct (setContent a2 a1 (plist l t)); by constructor.
    + rewrite lget_run. constructor.
    + rewrite hget_run. constructor.
    + rewrite hset_run by done.
      destruct (entryAt s userID a0) as [[c t | l t | t m] |]; by constructor.
  - by_arity c args Hlen.
    + rewrite del_run. by constructor.
    + rewrite keys_run. constructor.
    + rewrite get_run. constructor.
    + rewrite set_nil by done. repeat split; try done. by left.
    + rewrite lpush_nil by done. repeat split; try done. right; by left.
    + rewrite lset_run, (entryAt_no_keyspace _ _ _ Hks). constructor.
    + rewrite lget_run. constructor.
    + rewrite hget_run. constructor.
    + rewrite hset_nil by done. repeat split; try done. do 2 right; by left.
Qed.

(** X1. Whatever the state, [authConnection] answers the identity [user]
    and leaves a state in which that identity has a keyspace; it changes no
    entry, no other user's keyspace and not the default TTL, and running it
    again changes nothing more. *)
Theorem authConnection_only_adds_keyspace (s : PotatoSlave) :
  (authConnection s).1 = "user"
  ∧ is_Some (storage (authConnection s).2 !! "user")
  ∧ (∀ u k, entryAt (authConnection s).2 u k = entryAt s u k)
  ∧ (∀ u, u ≠ "user" → storage (authConnection s).2 !! u = storage s !! u)
  ∧ DEFAULTTTL (authConnection s).2 = DEFAULTTTL s
  ∧ authConnection (authConnection s).2 = authConnection s.
Proof.
  unfold authConnection.
  destruct (storage s !! "user") as [ks |] eqn:Hks; simpl.
  - rewrite Hks. eauto 10.
  - rewrite lookup_insert_eq. repeat split; eauto.
    + intros u k. unfold entryAt; simpl.
      destruct (decide (u = "user")) as [-> | Hne].
      * by rewrite lookup_insert_eq, Hks.
      * by rewrite lookup_insert_ne.
    + intros u Hne. by rewrite lookup_insert_ne.
Qed.

(** X2. A handler call that returns has changed at most one entry, the
    caller's entry at the key named by the first argument: every other
    entry of the caller, every keyspace of another user and the default TTL
    are as before. *)
Theorem handler_touches_one_entry (c : Command) (userID : string)
    (mes : CommandMessage) (now : Time) (s : PotatoSlave)
    (r : ResponseMessage) (s' : PotatoSlave) :
  handlerOf c userID mes now s = Returns (r, s') →
  DEFAULTTTL s' = DEFAULTTTL s
  ∧ (∀ u, u ≠ userID → storage s' !! u = storage s !! u)
  ∧ (∀ k, Arguments mes !! 0%nat ≠ Some k → entryAt s' userID k = entryAt s userID k).
Proof.
  intros Hrun. pose proof (handler_outcome c userID mes now s) as Hout.
  rewrite Hrun in Hout.
  destruct Hout as [| k0 Hk0 | k0 e Hk0 Hks | k0 e Hk0 Hks].
  - done.
  - split; [done |]. split.
    + intros u Hne. by apply storage_dropEntry_ne.
    + intros k Hk. rewrite entryAt_dropEntry, decide_False; [done |].
      intros [_ ->]. contradiction.
  - split; [apply DEFAULTTTL_putEntry |]. split.
    + intros u Hne. by apply storage_putEntry_ne.
    + intros k Hk. rewrite entryAt_putEntry, decide_False; [done | | done].
      intros [_ ->]. contradiction.
  - split; [by rewrite DEFAULTTTL_putEntry |]. split.
    + intros u Hne. by rewrite storage_putEntry_ne, storage_dropEntry_ne.
    + intros k Hk.
      rewrite entryAt_putEntry, decide_False;
        [| intros [_ ->]; contradiction | by apply dropEntry_keyspace].
      rewrite entryAt_dropEntry, decide_False; [done |].
      intros [_ ->]. contradiction.
Qed.

Lemma handler_touches_one_entry_witness :
  ∃ r s',
    handlerOf CSet "user" (mkCommand "set" ["k"; "v"] 0) 7 slave0 = Returns (r, s')
    ∧ entryAt s' "user" "l" = Some (plist ["a"] 60)
    ∧ DEFAULTTTL s' = 1000.
Proof.
  destruct (handlerOf CSet "user" (mkCommand "set" ["k"; "v"] 0) 7 slave0)
    as [[r s'] | reason] eqn:Hrun; [| vm_compute in Hrun; discriminate Hrun].
  exists r, s'. split; [reflexivity |].
  destruct (handler_touches_one_entry CSet "user" _ 7 slave0 r s' Hrun)
    as (Httl & _ & Hother).
  split; [| exact Httl].
  rewrite (Hother "l"); [vm_compute; reflexivity | simpl; discriminate].
Defined.

(** X3. A handler call panics exactly when it is [set], [lpush] or [hset]
    called with its required argument count by a user that has no
    keyspace; in every other case it returns. *)
Theorem handler_panics_iff (c : Command) (userID : string)
    (mes : CommandMessage) (now : Time) (s : PotatoSlave) :
  (∃ reason, handlerOf c userID mes now s = Panics reason)
  ↔ (c ∈ assigning ∧ length (Arguments mes) = arity c ∧ storage s !! userID = None).
Proof.
  pose proof (handler_outcome c userID mes now s) as Hout. split.
  - intros [reason Hrun]. rewrite Hrun in Hout. tauto.
  - intros (Hc & Hlen & Hks). destruct mes as [name args ttl]. simpl in Hlen.
    fold (mkCommand name args ttl).
    destruct c; try (by not_listed Hc); simpl in Hlen;
      destruct args as [| a0 [| a1 [| a2 [| a3 args]]]]; try discriminate Hlen;
      unfold handlerOf; eexists.
    + by apply set_nil.
    + by apply lpush_nil.
    + by apply hset_nil.
Qed.

(** ** Responses *)

(** X4. The response of a handler call that returns is one of five: the
    WrongArguments, WrongType or NoKey response with an empty value, an OK
    response, or the all-zero response, which only [hset] gives. A value
    that is not empty comes only with an OK response of [keys], [get],
    [lget] or [hget]. *)
Theorem handler_response_shape (c : Command) (userID : string)
    (mes : CommandMessage) (now : Time) (s : PotatoSlave)
    (r : ResponseMessage) (s' : PotatoSlave) :
  handlerOf c userID mes now s = Returns (r, s') →
  (r = respWA ∨ r = respWT ∨ r = respNK ∨ (∃ v, r = respOK v)
   ∨ (c = CHset ∧ r = zeroResponse))
  ∧ (Value r ≠ "" → Code r = _OK ∧ c ∈ [CKeys; CGet; CLget; CHget]).
Proof.
  destruct mes as [name args ttl].
  destruct (decide (length args = arity c)) as [Hlen | Hlen]; cycle 1.
  { rewrite wrong_arity_run by done. intros [= <- <-]. split; [by left | done]. }
  fold (mkCommand name args ttl).
  assert (Hlist : ∀ c', c' ∈ [CKeys; CGet; CLget; CHget] ↔
                        c' = CKeys ∨ c' = CGet ∨ c' = CLget ∨ c' = CHget).
  { intros c'. rewrite !elem_of_cons, elem_of_nil. tauto. }
  destruct (storage s !! userID) as [ks |] eqn:Hks.
  - assert (Hsome : is_Some (storage s !! userID)) by (rewrite Hks; eauto).
    by_arity c args Hlen.
    + rewrite del_run. intros [= <- <-]. split; [eauto 6 | done].
    + rewrite keys_run. intros [= <- <-]. rewrite Hlist. split; [eauto 6 | eauto].
    + rewrite get_run. intros [= <- <-]. rewrite Hlist.
      destruct (entryAt s userID a0) as [[c t | l t | t m] |];
        (split; [eauto 6 | simpl; intros; by eauto]).
    + rewrite set_run by done. intros [= <- <-]. split; [eauto 6 | done].
    + rewrite lpush_run by done. intros [= <- <-]. split; [eauto 6 | done].
    + rewrite lset_run.
      destruct (entryAt s userID a0) as [[c t | l t | t m] |];
        try (intros [= <- <-]; split; [eauto 6 | done]).
      destruct (setContent a2 a1 (plist l t));
        intros [= <- <-]; (split; [eauto 6 | done]).
    + rewrite lget_run. intros [= <- <-]. rewrite Hlist.
      destruct (entryAt s userID a0) as [[c t | l t | t m] |];
        try (split; [eauto 6 | simpl; intros; by eauto]).
      destruct (getContent a1 (plist l t));
        (split; [eauto 6 | simpl; intros; by eauto]).
    + rewrite hget_run. intros [= <- <-]. rewrite Hlist.
      destruct (entryAt s userID a0) as [[c t | l t | t m] |];
        try (split; [eauto 6 | simpl; intros; by eauto]).
      destruct (getContent a1 (pmap t m));
        (split; [eauto 6 | simpl; intros; by eauto]).
    + rewrite hset_run by done.
      destruct (entryAt s userID a0) as [[c t | l t | t m] |];
        intros [= <- <-]; (split; [eauto 7 | done]).
  - by_arity c args Hlen.
    + rewrite del_run. intros [= <- <-]. split; [eauto 6 | done].
    + rewrite keys_run. intros [= <- <-]. rewrite Hlist. split; [eauto 6 | eauto].
    + rewrite get_run, (entryAt_no_keyspace _ _ _ Hks).
      intros [= <- <-]. split; [eauto 6 | done].
    + by rewrite set_nil.
    + by rewrite lpush_nil.
    + rewrite lset_run, (entryAt_no_keyspace _ _ _ Hks).
      intros [= <- <-]. split; [eauto 6 | done].
    + rewrite lget_run, (entryAt_no_keyspace _ _ _ Hks).
      intros [= <- <-]. split; [eauto 6 | done].
    + rewrite hget_run, (entryAt_no_keyspace _ _ _ Hks).
      intros [= <- <-]. split; [eauto 6 | done].
    + by rewrite hset_nil.
Qed.

Lemma handler_response_shape_witness :
  ∃ r s',
    handlerOf CGet "user" (mkCommand "get" ["k"] 0) 7 slave0 = Returns (r, s')
    ∧ (r = respWA ∨ r = respWT ∨ r = respNK ∨ (∃ v, r = respOK v)
       ∨ (CGet = CHset ∧ r = zeroResponse)).
Proof.
  destruct (handlerOf CGet "user" (mkCommand "get" ["k"] 0) 7 slave0)
    as [[r s'] | reason] eqn:Hrun; [| vm_compute in Hrun; discriminate Hrun].
  exists r, s'. split; [reflexivity |].
  exact (proj1 (handler_response_shape CGet "user" _ 7 slave0 r s' Hrun)).
Defined.

(** ** Sessions *)

Lemma unknown_command_in_session inbound username s :
  Exists (λ m : Time * CommandMessage, Name m.2 ∉ commandNames) inbound →
  ∃ reason, handleConnection inbound username s = Panics reason.
Proof.
  intros Hex. revert s.
  induction Hex as [[now mes] rest Hname | [now mes] rest _ IH]; intros s; simpl.
  - simpl in Hname. rewrite functions_unknown by done. eauto.
  - destruct (functions !! Name mes) as [f |]; [| by eauto].
    destruct (f username mes now s) as [[r s1] | reason]; [| by eauto].
    destruct (IH s1) as [reason ->]. eauto.
Qed.

(** X5. A session that comes to its end has written exactly one response
    per decoded command, in order, then released its worker and closed the
    connection: the worker is released once and nothing follows the close. *)
Theorem session_trace_shape (inbound : list (Time * CommandMessage))
    (username : string) (s : PotatoSlave) (acts : list Action) (s' : PotatoSlave) :
  handleConnection inbound username s = Returns (acts, s') →
  ∃ rs : list ResponseMessage,
    acts = ((Encode <$> rs) ++ [ReleaseWorker; Close])%list
    ∧ length rs = length inbound.
Proof.
  revert s acts s'.
  induction inbound as [| [now mes] rest IH]; intros s acts s'; simpl.
  - intros [= <- _]. by exists [].
  - destruct (functions !! Name mes) as [f |]; [| done].
    destruct (f username mes now s) as [[r s1] |]; [| done].
    destruct (handleConnection rest username s1) as [[acts1 s2] |] eqn:Hrest; [| done].
    intros [= <- _]. destruct (IH _ _ _ Hrest) as (rs & -> & Hlen).
    exists (r :: rs). simpl. by rewrite Hlen.
Qed.

Lemma session_trace_shape_witness :
  ∃ acts s' (rs : list ResponseMessage),
    handleConnection [(7, mkCommand "get" ["k"] 0); (8, mkCommand "del" ["k"] 0)]
      "user" slave0 = Returns (acts, s')
    ∧ acts = ((Encode <$> rs) ++ [ReleaseWorker; Close])%list ∧ length rs = 2%nat.
Proof.
  destruct (handleConnection
              [(7, mkCommand "get" ["k"] 0); (8, mkCommand "del" ["k"] 0)]
              "user" slave0) as [[acts s'] | reason] eqn:Hrun;
    [| vm_compute in Hrun; discriminate Hrun].
  destruct (session_trace_shape _ _ _ _ _ Hrun) as (rs & Hacts & Hlen).
  exists acts, s', rs. split; [reflexivity |]. split; [exact Hacts | exact Hlen].
Defined.

(** X6. For an identity that has a keyspace, a session comes to its end
    exactly when every command it decodes names one of the nine handlers;
    otherwise it panics. *)
Theorem session_returns_iff_known (inbound : list (Time * CommandMessage))
    (username : string) (s : PotatoSlave) :
  is_Some (storage s !! username) →
  (∃ acts s', handleConnection inbound username s = Returns (acts, s'))
  ↔ Forall (λ m : Time * CommandMessage, Name m.2 ∈ commandNames) inbound.
Proof.
  intros Hks. split.
  - intros (acts & s' & Hrun).
    destruct (decide (Forall (λ m : Time * CommandMessage,
                                Name m.2 ∈ commandNames) inbound)) as [| Hno];
      [done |].
    apply not_Forall_Exists in Hno; [| intros m; apply _].
    destruct (unknown_command_in_session inbound username s Hno) as [reason Hp].
    congruence.
  - intros Hnames.
    destruct (session_returns inbound username s Hnames Hks) as (acts & s' & Hrun & _).
    eauto.
Qed.

Lemma session_returns_iff_known_witness :
  is_Some (storage slave0 !! "user") ∧
  ((∃ acts s', handleConnection [(7, mkCommand "get" ["k"] 0)] "user" slave0
               = Returns (acts, s'))
   ↔ Forall (λ m : Time * CommandMessage, Name m.2 ∈ commandNames)
       [(7, mkCommand "get" ["k"] 0)]).
Proof.
  assert (H : is_Some (storage slave0 !! "user")) by (vm_compute; eauto).
  split; [exact H |].
  exact (session_returns_iff_known [(7, mkCommand "get" ["k"] 0)] "user" slave0 H).
Defined.

(** X7. Commands of a session take effect one after the other: running a
    session on an input cut in two is running the first part, then the
    second part in the state the first one left, the responses of the
    second part following those of the first; a panic in either part is a
    panic of the whole. *)
Theorem session_append (in1 in2 : list (Time * CommandMessage))
    (username : string) (s : PotatoSlave) :
  handleConnection (in1 ++ in2) username s =
  match handleConnection in1 username s with
  | Panics reason => Panics reason
  | Returns (acts1, s1) =>
      match handleConnection in2 username s1 with
      | Panics reason => Panics reason
      | Returns (acts2, s2) => Returns ((take (length in1) acts1 ++ acts2)%list, s2)
      end
  end.
Proof.
  revert s. induction in1 as [| [now mes] rest IH]; intros s; simpl.
  - by destruct (handleConnection in2 username s) as [[acts2 s2] |].
  - destruct (functions !! Name mes) as [f |]; [| done].
    destruct (f username mes now s) as [[r s1] |]; [| done].
    rewrite IH.
    destruct (handleConnection rest username s1) as [[acts1 s2] |]; [| done].
    by destruct (handleConnection in2 username s2) as [[acts2 s3] |].
Qed.

(** ** How commands compose *)

Lemma dropEntry_idemp s u k : dropEntry (dropEntry s u k) u k = dropEntry s u k.
Proof.
  unfold dropEntry, withStorage; simpl. f_equal.
  rewrite alter_alter_eq. apply map_eq. intros u'.
  destruct (decide (u' = u)) as [-> | Hne].
  - rewrite !lookup_alter_eq. destruct (storage s !! u) as [ks |]; simpl; [| done].
    f_equal. apply delete_delete_eq.
  - by rewrite !lookup_alter_ne.
Qed.

Lemma set_state userID name k v ttl now s ks :
  storage s !! userID = Some ks →
  set userID (mkCommand name [k; v] ttl) now s =
  Returns (respOK "",
           withStorage s (<[userID := <[k := pstring v (freshDeath now ttl s)]> ks]>
                            (storage s))).
Proof.
  intros Hks. rewrite set_run by (rewrite Hks; eauto).
  unfold putEntry, dropEntry, withStorage; simpl.
  rewrite lookup_alter_eq, Hks; simpl.
  by rewrite insert_alter_eq, insert_delete_eq.
Qed.

(** X8. In every state, [del] of a key returns OK and leaves the key
    without an entry, so that a following [get] of it answers NoKey; a
    second [del] of the same key returns OK and changes nothing. *)
Theorem del_then_get (userID name name' k : string) (ttl ttl' : Duration)
    (now now' : Time) (s : PotatoSlave) :
  ∃ s1,
    del userID (mkCommand name [k] ttl) now s = Returns (respOK "", s1)
    ∧ entryAt s1 userID k = None
    ∧ get userID (mkCommand name' [k] ttl') now' s1 = Returns (respNK, s1)
    ∧ del userID (mkCommand name [k] ttl) now' s1 = Returns (respOK "", s1).
Proof.
  exists (dropEntry s userID k).
  assert (Hgone : entryAt (dropEntry s userID k) userID k = None)
    by (rewrite entryAt_dropEntry; by rewrite decide_True).
  split; [apply del_run |]. split; [exact Hgone |]. split.
  - by rewrite get_run, Hgone.
  - by rewrite del_run, dropEntry_idemp.
Qed.

(** X9. The last [set] wins: where the caller has a keyspace, a [set] of a
    key followed by a second [set] of the same key leaves exactly the state
    the second [set] alone would have left. *)
Theorem set_overwrites_set (userID name k v1 v2 : string) (ttl1 ttl2 : Duration)
    (now1 now2 : Time) (s : PotatoSlave) :
  is_Some (storage s !! userID) →
  ∃ s1 s2,
    set userID (mkCommand name [k; v1] ttl1) now1 s = Returns (respOK "", s1)
    ∧ set userID (mkCommand name [k; v2] ttl2) now2 s1 = Returns (respOK "", s2)
    ∧ set userID (mkCommand name [k; v2] ttl2) now2 s = Returns (respOK "", s2).
Proof.
  intros [ks Hks]. eexists _, _.
  split; [by apply set_state |]. split.
  - rewrite (set_state _ _ _ _ _ _ _ (<[k := pstring v1 (freshDeath now1 ttl1 s)]> ks))
      by (simpl; apply lookup_insert_eq).
    reflexivity.
  - rewrite (set_state _ _ _ _ _ _ _ ks Hks). unfold withStorage; simpl.
    by rewrite !insert_insert_eq.
Qed.

Lemma set_overwrites_set_witness :
  is_Some (storage slave0 !! "user") ∧
  ∃ s1 s2,
    set "user" (mkCommand "set" ["k"; "a"] 0) 7 slave0 = Returns (respOK "", s1)
    ∧ set "user" (mkCommand "set" ["k"; "b"] 5) 8 s1 = Returns (respOK "", s2)
    ∧ set "user" (mkCommand "set" ["k"; "b"] 5) 8 slave0 = Returns (respOK "", s2).
Proof.
  assert (H : is_Some (storage slave0 !! "user")) by (vm_compute; eauto).
  split; [exact H |].
  exact (set_overwrites_set "user" "set" "k" "a" "b" 0 5 7 8 slave0 H).
Defined.



(** ** Sweeps of the TTL checker *)

Lemma lookup_ttlSweep clock (st : gmap string (gmap string potat)) u :
  ttlSweep clock st !! u = sweepKeys (clock u) <$> st !! u.
Proof. unfold ttlSweep. rewrite map_lookup_imap. by destruct (st !! u). Qed.

Lemma lookup_sweepKeys c (ks : gmap string potat) k :
  sweepKeys c ks !! k =
  ks !! k ≫= λ e, if Before (getTimeOfDeath e) (c k) then None else Some e.
Proof.
  unfold sweepKeys. rewrite map_lookup_filter.
  destruct (ks !! k) as [e |]; simpl; [| done].
  case_guard as Hg; simpl; [by rewrite Hg |].
  by destruct (Before (getTimeOfDeath e) (c k)).
Qed.

(** X11. A sweep only removes: it keeps the keyspace of every user (even
    one it empties) and the default TTL, and an entry found after the sweep
    is an entry that was there before, unchanged, whose death time is not
    before the clock reading at its key. *)
Theorem sweep_only_removes (clock : string → string → Time) (s : PotatoSlave) :
  DEFAULTTTL (sweep clock s) = DEFAULTTTL s
  ∧ (∀ u, is_Some (storage (sweep clock s) !! u) ↔ is_Some (storage s !! u))
  ∧ (∀ u k e, entryAt (sweep clock s) u k = Some e →
       entryAt s u k = Some e ∧ (clock u k ≤ getTimeOfDeath e)%Z).
Proof.
  split; [done |]. split.
  - intros u. unfold sweep; simpl. rewrite lookup_ttlSweep.
    by rewrite fmap_is_Some.
  - intros u k e. rewrite entryAt_sweep.
    destruct (entryAt s u k) as [e0 |]; simpl; [| done].
    unfold Before. case_bool_decide; [done |].
    intros [= <-]. split; [done | lia].
Qed.

(** X12. Two sweeps in a row are one sweep with, at every key, the later
    of the two clock readings; in particular a sweep repeated with the same
    readings removes nothing more. *)
Theorem sweep_sweep (clock1 clock2 : string → string → Time) (s : PotatoSlave) :
  sweep clock2 (sweep clock1 s) = sweep (λ u k, Z.max (clock1 u k) (clock2 u k)) s.
Proof.
  unfold sweep, withStorage; simpl. f_equal.
  apply map_eq. intros u. rewrite !lookup_ttlSweep.
  destruct (storage s !! u) as [ks |]; simpl; [| done].
  f_equal. apply map_eq. intros k. rewrite !lookup_sweepKeys.
  destruct (ks !! k) as [e |]; simpl; [| done].
  unfold Before.
  destruct (decide (getTimeOfDeath e < clock1 u k)) as [H1 | H1];
    destruct (decide (getTimeOfDeath e < clock2 u k)) as [H2 | H2].
  - rewrite (bool_decide_eq_true_2 _ H1); simpl.
    rewrite bool_decide_eq_true_2 by lia. done.
  - rewrite (bool_decide_eq_true_2 _ H1); simpl.
    rewrite bool_decide_eq_true_2 by lia. done.
  - rewrite (bool_decide_eq_false_2 _ H1); simpl.
    rewrite (bool_decide_eq_true_2 _ H2).
    rewrite bool_decide_eq_true_2 by lia. done.
  - rewrite (bool_decide_eq_false_2 _ H1); simpl.
    rewrite (bool_decide_eq_false_2 _ H2).
    rewrite bool_decide_eq_false_2 by lia. done.
Qed.

(** X13. An entry written by [set] and then swept: where the caller has a
    keyspace, after [set k v] at time [now] and one sweep, [get k] answers
    NoKey if the entry's death time, [now] plus the TTL in force, is before
    the sweep's clock reading at the key, and answers [v] with OK
    otherwise. *)
Theorem set_sweep_get (userID name name' k v : string) (ttl ttl' : Duration)
    (now now' : Time) (clock : string → string → Time) (s : PotatoSlave) :
  is_Some (storage s !! userID) →
  ∃ s1,
    set userID (mkCommand name [k; v] ttl) now s = Returns (respOK "", s1)
    ∧ get userID (mkCommand name' [k] ttl') now' (sweep clock s1)
      = Returns (if bool_decide
                      (Add now (if bool_decide (ttl ≠ 0) then ttl else DEFAULTTTL s)
                       < clock userID k)
                 then respNK else respOK v,
                 sweep clock s1).
Proof.
  intros Hks. eexists. split; [by apply set_run |].
  rewrite get_run, entryAt_sweep.
  rewrite entryAt_putEntry by by apply dropEntry_keyspace.
  rewrite decide_True by done. simpl. unfold Before, freshDeath.
  by case_bool_decide.
Qed.

Lemma set_sweep_get_witness :
  is_Some (storage slave0 !! "user") ∧
  ∃ s1,
    set "user" (mkCommand "set" ["k"; "v"] 5) 7 slave0 = Returns (respOK "", s1)
    ∧ get "user" (mkCommand "get" ["k"] 0) 20 (sweep (λ _ _, 13) s1)
      = Returns (respNK, sweep (λ _ _, 13) s1).
Proof.
  assert (H : is_Some (storage slave0 !! "user")) by (vm_compute; eauto).
  split; [exact H |].
  destruct (set_sweep_get "user" "set" "get" "k" "v" 5 0 7 20 (λ _ _, 13) slave0 H)
    as (s1 & Hset & Hget).
  exists s1. split; [exact Hset | exact Hget].
Defined.

(** ** [keys] and the accept loop *)

(** X14. Whoever calls it, [keys] without arguments returns OK, leaves the
    state as it is, and its value is the text ['k1','k2',] of a list that
    holds every key of the keyspace of [user] exactly once and nothing
    else; with no such key the value is empty. *)
Theorem keys_lists_each_user_key_once (userID name : string) (ttl : Duration)
    (now : Time) (s : PotatoSlave) :
  ∃ l : list string,
    keys userID (mkCommand name [] ttl) now s = Returns (respOK (keysText l), s)
    ∧ NoDup l
    ∧ (∀ k, k ∈ l ↔ is_Some (entryAt s "user" k))
    ∧ ((∀ k, entryAt s "user" k = None) → keysText l = "").
Proof.
  destruct (keys_lists_user_keyspace userID name ttl now s) as (l & Hrun & Hnd & Hin).
  exists l. repeat split; try done; try apply Hin.
  intros Hnone. destruct l as [| k l]; [done |].
  assert (Hk : is_Some (entryAt s "user" k)) by (apply Hin; left).
  rewrite Hnone in Hk. by destruct Hk.
Qed.

Lemma authConnection_entryAt s u k :
  entryAt (authConnection s).2 u k = entryAt s u k.
Proof.
  unfold authConnection. destruct (storage s !! "user") as [ks |] eqn:Hks; [done |].
  unfold entryAt; simpl. destruct (decide (u = "user")) as [-> | Hne].
  - by rewrite lookup_insert_eq, Hks.
  - by rewrite lookup_insert_ne.
Qed.

Lemma authConnection_keeps s u :
  is_Some (storage s !! u) → is_Some (storage (authConnection s).2 !! u).
Proof.
  intros Hu. unfold authConnection.
  destruct (storage s !! "user") as [ks |] eqn:Hks; [done |]. simpl.
  destruct (decide (u = "user")) as [-> | Hne].
  - rewrite lookup_insert_eq. eauto.
  - by rewrite lookup_insert_ne.
Qed.

Lemma serveAccepted_spec ready s :
  serveAccepted ready s =
  if ready then ([GoHandleConnection "user"], (authConnection s).2)
  else ([Encode noWorkersResponse], s).
Proof.
  unfold serveAccepted. destruct ready; [| done].
  pose proof (authConnection_keyspace s) as [Hname _].
  destruct (authConnection s) as [name s0]. simpl in *. by subst.
Qed.

(** X15. The accept loop deals with every accepted connection in one of
    two ways, in order of acceptance: a session is started for the identity
    [user] when a worker was free, or a single NoWorkers response is
    written when none was; the loop itself changes no entry, and once a
    session was started the identity [user] has a keyspace. *)
Theorem acceptLoop_outcomes (accepted : list bool) (s : PotatoSlave) :
  (acceptLoop accepted s).1
  = (λ ready : bool,
       if ready then [GoHandleConnection "user"] else [Encode noWorkersResponse])
    <$> accepted
  ∧ (∀ u k, entryAt (acceptLoop accepted s).2 u k = entryAt s u k)
  ∧ (∀ u, is_Some (storage s !! u) →
          is_Some (storage (acceptLoop accepted s).2 !! u))
  ∧ (true ∈ accepted → is_Some (storage (acceptLoop accepted s).2 !! "user")).
Proof.
  revert s. induction accepted as [| ready rest IH]; intros s.
  - simpl. repeat split; try done. by intros ?%elem_of_nil.
  - simpl. rewrite serveAccepted_spec.
    destruct ready.
    + destruct (IH (authConnection s).2) as (Hout & Hent & Hkeep & _).
      destruct (acceptLoop rest (authConnection s).2) as [more s2]. simpl in *.
      split; [by rewrite Hout |]. split; [| split].
      * intros u k. by rewrite Hent, authConnection_entryAt.
      * intros u Hu. by apply Hkeep, authConnection_keeps.
      * intros _. apply Hkeep. apply authConnection_keyspace.
    + destruct (IH s) as (Hout & Hent & Hkeep & Hstart).
      destruct (acceptLoop rest s) as [more s2]. simpl in *.
      split; [by rewrite Hout |]. split; [done |]. split; [done |].
      intros [Heq | Hin]%elem_of_cons; [discriminate Heq | by apply Hstart].
Qed.

(** ** End to end *)

Lemma known_session_trace inbound username s :
  Forall (λ m : Time * CommandMessage, Name m.2 ∈ commandNames) inbound →
  is_Some (storage s !! username) →
  ∃ (rs : list ResponseMessage) s',
    handleConnection inbound username s
    = Returns (((Encode <$> rs) ++ [ReleaseWorker; Close])%list, s')
    ∧ length rs = length inbound.
Proof.
  intros Hnames. revert s.
  induction Hnames as [| [now mes] rest Hname _ IH]; intros s Hks; simpl.
  - by exists [], s.
  - simpl in Hname. apply commandNames_spec in Hname as (c & ->).
    rewrite functions_lookup.
    destruct (handler_effect c username mes now s Hks) as (r & s1 & Hrun & _).
    rewrite Hrun.
    destruct (IH s1) as (rs & s2 & -> & Hlen).
    { eapply handler_keeps_keyspace; eauto. }
    exists (r :: rs), s2. simpl. by rewrite Hlen.
Qed.

(** X16. From any state, a session admitted by the accept loop, that is,
    run for the identity and in the state [authConnection] gives, comes to
    its end whenever all its commands name one of the nine handlers: its
    trace is one encoded response per command, in order, followed by the
    release of the worker and then the close of the connection. *)
Theorem admitted_session_completes (inbound : list (Time * CommandMessage))
    (s : PotatoSlave) :
  Forall (λ m : Time * CommandMessage, Name m.2 ∈ commandNames) inbound →
  ∃ (rs : list ResponseMessage) s',
    handleConnection inbound (authConnection s).1 (authConnection s).2
    = Returns (((Encode <$> rs) ++ [ReleaseWorker; Close])%list, s')
    ∧ length rs = length inbound.
Proof.
  intros Hnames.
  pose proof (authConnection_keyspace s) as [Hname Hks].
  rewrite Hname.
  exact (known_session_trace inbound "user" _ Hnames Hks).
Qed.

Lemma admitted_session_completes_witness :
  Forall (λ m : Time * CommandMessage, Name m.2 ∈ commandNames)
    [(7, mkCommand "set" ["k"; "v"] 0)]
  ∧ ∃ (rs : list ResponseMessage) s',
      handleConnection [(7, mkCommand "set" ["k"; "v"] 0)]
        (authConnection (withStorage slave0 ∅)).1 (authConnection (withStorage slave0 ∅)).2
      = Returns (((Encode <$> rs) ++ [ReleaseWorker; Close])%list, s')
      ∧ length rs = 1%nat.
Proof.
  assert (H : Forall (λ m : Time * CommandMessage, Name m.2 ∈ commandNames)
                [(7, mkCommand "set" ["k"; "v"] 0)]).
  { constructor; [| constructor]. simpl. apply commandNames_spec. by exists CSet. }
  split; [exact H |].
  exact (admitted_session_completes _ (withStorage slave0 ∅) H).
Defined.

(** X17. [del], [keys], [get], [lset], [lget] and [hget] do not look at
    the clock: the same call gives the same response and state at any two
    times. Death times are compared with the clock by the sweep only, so an
    entry past its death time is served until a sweep removes it. *)
Theorem clock_free_handlers (c : Command) (userID : string)
    (mes : CommandMessage) (now now' : Time) (s : PotatoSlave) :
  c ∈ clockFree →
  handlerOf c userID mes now s = handlerOf c userID mes now' s.
Proof.
  intros Hc. destruct mes as [name args ttl].
  destruct (decide (length args = arity c)) as [Hlen | Hlen]; cycle 1.
  { by rewrite !wrong_arity_run. }
  fold (mkCommand name args ttl). unfold clockFree in Hc.
  destruct c; try (by not_listed Hc); clear Hc; simpl in Hlen;
    destruct args as [| a0 [| a1 [| a2 [| a3 args]]]]; try discriminate Hlen;
    unfold handlerOf.
  - by rewrite !del_run.
  - by rewrite !keys_run.
  - by rewrite !get_run.
  - by rewrite !lset_run.
  - by rewrite !lget_run.
  - by rewrite !hget_run.
Qed.

Lemma clock_free_handlers_witness :
  CGet ∈ clockFree ∧
  handlerOf CGet "user" (mkCommand "get" ["k"] 0) 7 slave0
  = handlerOf CGet "user" (mkCommand "get" ["k"] 0) 5000 slave0.
Proof.
  assert (H : CGet ∈ clockFree) by (do 2 right; left).
  split; [exact H |].
  exact (clock_free_handlers CGet "user" (mkCommand "get" ["k"] 0) 7 5000 slave0 H).
Defined.
